(** * laspec.binning: flux-conserving rebinning of a 1-D spectrum

    A shallow embedding of [src/laspec/binning.py] ([mdwave], [wave_log10],
    [center2edge], [rebin]) and the properties of its specification.

    Numbers.  A finite float is modelled by the rational it denotes ([Q],
    exact arithmetic, compared with [==]); not-a-number is [None] of
    [fl := option Q].  Input arrays hold finite numbers; NaN arises inside
    [rebin] only, from the interpolation that maps new edges onto old pixel
    indices.  Rounding is not modelled: a statement with [==] says that the
    two sides agree as real numbers.  Two library operations leave the
    rationals: [np.sqrt], whose result array is kept as the exact root of a
    rational array ([SqrtArr]), and [np.log10]/[np.logspace], for which
    [wave_log10] is given real-valued results.

    Errors.  A Python exception is [Raise e] of [result]. *)

From Stdlib Require Import List ZArith QArith Qround Qabs Qminmax Bool Lia Psatz.
From Stdlib Require Import Reals Qreals Rpower.
Import ListNotations.

Local Open Scope Q_scope.

(** ** Exceptions *)

Inductive exn : Set :=
| IndexError
| AssertionError
| ValueError
| OverflowError
| AttributeError.

Inductive result (A : Type) : Type :=
| Ok (a : A)
| Raise (e : exn).

Arguments Ok {A} a.
Arguments Raise {A} e.

Definition bind {A B : Type} (r : result A) (k : A -> result B) : result B :=
  match r with
  | Ok a => k a
  | Raise e => Raise e
  end.

Notation "x <- r ;; k" := (bind r (fun x => k))
  (at level 61, r at next level, right associativity).

(** ** Floats that may be NaN *)

Definition fl : Type := option Q.
Definition NaN : fl := None.

Definition isnan (a : fl) : bool :=
  match a with
  | None => true
  | Some _ => false
  end.

Definition fl_lift2 (op : Q -> Q -> Q) (a b : fl) : fl :=
  match a, b with
  | Some x, Some y => Some (op x y)
  | _, _ => NaN
  end.

Definition fl_add : fl -> fl -> fl := fl_lift2 Qplus.
Definition fl_sub : fl -> fl -> fl := fl_lift2 Qminus.
Definition fl_mul : fl -> fl -> fl := fl_lift2 Qmult.

(** Equality of two floats as numbers; NaN matches NaN only. *)
Definition fl_eq (a b : fl) : Prop :=
  match a, b with
  | Some x, Some y => x == y
  | None, None => True
  | _, _ => False
  end.

(** [a] is a number within [tol] of [b]. *)
Definition close_to (tol : Q) (a : fl) (b : Q) : Prop :=
  match a with
  | Some x => Qabs (x - b) <= tol
  | None => False
  end.

Definition Qlt_bool (a b : Q) : bool := negb (Qle_bool b a).

(** ** Python sequences: indexing and slicing *)

Section Sequences.
Context {A : Type}.

(** [l[i]]: a negative index counts from the end; out of range raises. *)
Definition getitem (l : list A) (i : Z) : result A :=
  let n := Z.of_nat (length l) in
  let k := if (i <? 0)%Z then (i + n)%Z else i in
  if ((0 <=? k) && (k <? n))%Z%bool then
    match nth_error l (Z.to_nat k) with
    | Some a => Ok a
    | None => Raise IndexError
    end
  else Raise IndexError.

(** A slice bound is shifted when negative and then clipped to [0, n]. *)
Definition slice_bound (n i : Z) : Z :=
  if (i <? 0)%Z then Z.max (i + n) 0 else Z.min i n.

(** [l[a:b]] *)
Definition getslice (l : list A) (a b : Z) : list A :=
  let n := Z.of_nat (length l) in
  let a' := slice_bound n a in
  let b' := slice_bound n b in
  firstn (Z.to_nat (b' - a')) (skipn (Z.to_nat a') l).

(** [l[i] = v] for an index known to be in range (a loop counter). *)
Fixpoint setitem (l : list A) (i : nat) (v : A) : list A :=
  match l, i with
  | [], _ => []
  | _ :: t, O => v :: t
  | a :: t, S j => a :: setitem t j v
  end.
End Sequences.

Fixpoint zip_with {A B C : Type} (f : A -> B -> C) (l : list A) (m : list B) : list C :=
  match l, m with
  | a :: l', b :: m' => f a b :: zip_with f l' m'
  | _, _ => []
  end.

(** [np.arange(n)] *)
Definition arange (n : nat) : list Q :=
  map (fun k => inject_Z (Z.of_nat k)) (seq 0 n).

(** [np.sum] *)
Definition np_sum (l : list Q) : Q := fold_left Qplus l 0.

(** [np.any] *)
Definition np_any (l : list bool) : bool := existsb (fun b => b) l.

(** [np.diff] *)
Fixpoint diff (x : list Q) : list Q :=
  match x with
  | a :: (b :: _) as t => (b - a) :: diff t
  | _ => []
  end.

(** ** [center2edge]: pixel centres to pixel edges *)

(** [np.hstack((x[0] - .5 * dx[0], x[:-1] + .5 * dx, x[-1] + .5 * dx[-1]))];
    indexing an empty [x] or an empty [dx] raises [IndexError]. *)
Definition center2edge (x : list Q) : result (list Q) :=
  let dx := diff x in
  x_0 <- getitem x 0 ;;
  dx_0 <- getitem dx 0 ;;
  x_l <- getitem x (-1) ;;
  dx_l <- getitem dx (-1) ;;
  Ok ((x_0 - (1#2) * dx_0)
        :: zip_with (fun a d => a + (1#2) * d) (removelast x) dx
        ++ [x_l + (1#2) * dx_l]).

(** ** [scipy.interpolate.interp1d], kind "linear", [bounds_error=False]

    The constructor checks the lengths and, [assume_sorted] being left at
    its default, sorts the nodes by [x]; a call finds the bracketing nodes
    with [searchsorted], interpolates, and overwrites what lies outside
    [x[0], x[-1]] with the fill value NaN.

    Nodes with equal [x], for which the order [argsort] leaves them in is
    unspecified and the slope divides by zero, do not occur on a strictly
    increasing grid; the statements about positions below are made for
    such grids, the wavelength grids of the specification. *)

Record interp1d : Type := Interp1d { ix : list Q; iy : list Q }.

Fixpoint insert_node (p : Q * Q) (l : list (Q * Q)) : list (Q * Q) :=
  match l with
  | [] => [p]
  | q :: t => if Qle_bool (fst p) (fst q) then p :: l else q :: insert_node p t
  end.

(** [ind = np.argsort(x); x = x[ind]; y = y[ind]] on the paired nodes. *)
Fixpoint sort_nodes (l : list (Q * Q)) : list (Q * Q) :=
  match l with
  | [] => []
  | p :: t => insert_node p (sort_nodes t)
  end.

Definition make_interp1d (x y : list Q) : result interp1d :=
  if negb (length x =? length y)%nat then Raise ValueError
  else if (length x <? 1)%nat then Raise ValueError
  else
    let nodes := sort_nodes (combine x y) in
    Ok (Interp1d (map fst nodes) (map snd nodes)).

(** [np.searchsorted(x, v)] on sorted [x]: the first index whose element is
    not below [v]. *)
Fixpoint searchsorted (x : list Q) (v : Q) : nat :=
  match x with
  | [] => 0
  | a :: t => if Qlt_bool a v then S (searchsorted t v) else 0
  end.

(** [np.clip] on indices *)
Definition clip (i lo hi : nat) : nat := Nat.min (Nat.max i lo) hi.

Definition call_linear (I : interp1d) (x_new : Q) : Q :=
  let x_new_indices := clip (searchsorted (ix I) x_new) 1 (length (ix I) - 1) in
  let lo := (x_new_indices - 1)%nat in
  let hi := x_new_indices in
  let x_lo := nth lo (ix I) 0 in
  let x_hi := nth hi (ix I) 0 in
  let y_lo := nth lo (iy I) 0 in
  let y_hi := nth hi (iy I) 0 in
  let slope := (y_hi - y_lo) / (x_hi - x_lo) in
  slope * (x_new - x_lo) + y_lo.

Definition interp1d_call (I : interp1d) (x_new : Q) : fl :=
  let below_bounds := Qlt_bool x_new (hd 0 (ix I)) in
  let above_bounds := Qlt_bool (last (ix I) 0) x_new in
  if below_bounds || above_bounds then NaN else Some (call_linear I x_new).

(** ** [rebin] *)

(** What [rebin] returns is a Python list of arrays.  [SqrtArr a] is the
    array [np.sqrt(a)], whose entries are the exact roots of the entries of
    [a] (NaN for a NaN or negative entry). *)
Inductive ndarray : Type :=
| FloatArr (a : list fl)
| SqrtArr (a : list fl)
| BoolArr (a : list bool).

(** [np.sqrt] of one entry, as a real number. *)
Definition np_sqrt (v : fl) : option R :=
  match v with
  | Some q => if Qle_bool 0 q then Some (sqrt (Q2R q)) else None
  | None => None
  end.

(** The entries of an array of floats as real numbers. *)
Definition float_entries (a : ndarray) : list (option R) :=
  match a with
  | FloatArr l => map (option_map Q2R) l
  | SqrtArr l => map np_sqrt l
  | BoolArr _ => []
  end.

(** The loop [for ipix, this_flag in enumerate(flags): body], run on the
    array the body assigns into. *)
Fixpoint for_enumerate {A : Type} (body : nat -> bool -> list A -> result (list A))
    (ipix : nat) (flags : list bool) (arr : list A) : result (list A) :=
  match flags with
  | [] => Ok arr
  | this_flag :: rest =>
      arr' <- body ipix this_flag arr ;;
      for_enumerate body (S ipix) rest arr'
  end.

(** The arrays [rebin] derives from the two grids before it touches the
    data (lines 64-75). *)
Record pixel_map : Type := PixelMap {
  wave_new_edge_pos2 : list (fl * fl);
  wave_new_ipix : list (Z * Z);
  wave_new_frac : list (fl * fl);
  flags : list bool
}.

Section Rebin.
(** [np.floor(nan).astype(int)] is whatever the platform's conversion
    returns (the smallest 64-bit integer on x86-64). *)
Variable nan_as_int : Z.

(** [wave_log10(wave, dwave=None)] as floating point evaluates it; its
    real-valued results are [wave_log10] below. *)
Variable wave_log10_float : list Q -> result (list Q).

Definition floor_astype_int (p : fl) : Z :=
  match p with
  | Some q => Qfloor q
  | None => nan_as_int
  end.

(** Lines 69-75: the new edges projected to the old pixel axis, split
    into the lower and upper edge of each new pixel, their integer and
    fraction parts, and the flags of pixels with a NaN edge. *)
Definition project_edges (I : interp1d) (wave_new_edge : list Q) : pixel_map :=
  let wave_new_edge_pos := map (interp1d_call I) wave_new_edge in
  let pos2 := combine (removelast wave_new_edge_pos) (tl wave_new_edge_pos) in
  let ipix := map (fun p => (floor_astype_int (fst p), floor_astype_int (snd p))) pos2 in
  let frac := zip_with (fun p i =>
                          (fl_sub (fst p) (Some (inject_Z (fst i))),
                           fl_sub (snd p) (Some (inject_Z (snd i))))) pos2 ipix in
  let flags := map (fun p => isnan (fst p) || isnan (snd p)) pos2 in
  PixelMap pos2 ipix frac flags.

(** Lines 64-75; [removelast wave_edge] is [wave_edge[:-1]]. *)
Definition map_pixels (wave wave_new : list Q) : result pixel_map :=
  wave_edge <- center2edge wave ;;
  wave_new_edge <- center2edge wave_new ;;
  I <- make_interp1d (removelast wave_edge) (arange (length wave)) ;;
  Ok (project_edges I wave_new_edge).

(** [np.sum(a[i0:i1]) - a[i0] * f0 + a[i1] * f1] *)
Definition pixel_sum (a : list Q) (i : Z * Z) (f : fl * fl) : result fl :=
  let s := np_sum (getslice a (fst i) (snd i)) in
  a_lo <- getitem a (fst i) ;;
  a_hi <- getitem a (snd i) ;;
  Ok (fl_add (fl_sub (Some s) (fl_mul (Some a_lo) (fst f)))
             (fl_mul (Some a_hi) (snd f))).

Definition rebin_flux_body (M : pixel_map) (a : list Q)
    (ipix : nat) (this_flag : bool) (a_new : list fl) : result (list fl) :=
  if negb this_flag then
    v <- pixel_sum a (nth ipix (wave_new_ipix M) (0, 0)%Z)
                     (nth ipix (wave_new_frac M) (NaN, NaN)) ;;
    Ok (setitem a_new ipix v)
  else Ok (setitem a_new ipix NaN).

Definition rebin_mask_body (M : pixel_map) (mask : list bool)
    (ipix : nat) (this_flag : bool) (mask_new : list bool) : result (list bool) :=
  if negb this_flag then
    let i := nth ipix (wave_new_ipix M) (0, 0)%Z in
    Ok (setitem mask_new ipix (np_any (getslice mask (fst i) (snd i + 1))))
  else Ok mask_new.

Definition rebin (wave : list Q) (flux flux_err : option (list Q))
    (mask : option (list bool)) (wave_new : option (list Q))
    : result (list ndarray) :=
  wave_new <- match wave_new with
              | None => wave_log10_float wave
              | Some w => Ok w
              end ;;
  M <- map_pixels wave wave_new ;;
  let result := [] in
  (* rebin flux *)
  result <- match flux with
            | Some flux =>
                if negb (length flux =? length wave)%nat then Raise AssertionError
                else
                  let flux_new := repeat (Some 0) (length wave_new) in
                  flux_new <- for_enumerate (rebin_flux_body M flux) 0 (flags M) flux_new ;;
                  Ok (result ++ [FloatArr flux_new])
            | None => Ok result
            end ;;
  (* rebin flux_err *)
  result <- match flux_err with
            | Some flux_err =>
                let flux_err2 := map (fun e => e * e) flux_err in
                if negb (length flux_err2 =? length wave)%nat then Raise AssertionError
                else
                  let flux_err2_new := repeat (Some 0) (length wave_new) in
                  flux_err2_new <-
                    for_enumerate (rebin_flux_body M flux_err2) 0 (flags M) flux_err2_new ;;
                  Ok (result ++ [SqrtArr flux_err2_new])
            | None => Ok result
            end ;;
  (* rebin mask *)
  result <- match mask with
            | Some mask =>
                if negb (length mask =? length wave)%nat then Raise AssertionError
                else
                  let mask_new := repeat false (length wave_new) in
                  mask_new <- for_enumerate (rebin_mask_body M mask) 0 (flags M) mask_new ;;
                  Ok (result ++ [BoolArr mask_new])
            | None => Ok result
            end ;;
  Ok result.
End Rebin.

(** ** [mdwave] and [wave_log10] *)

Fixpoint insert_sorted (a : Q) (l : list Q) : list Q :=
  match l with
  | [] => [a]
  | b :: t => if Qle_bool a b then a :: l else b :: insert_sorted a t
  end.

Fixpoint np_sort (l : list Q) : list Q :=
  match l with
  | [] => []
  | a :: t => insert_sorted a (np_sort t)
  end.

(** [np.median]: the middle element of the sorted array, the mean of the two
    middle elements when the length is even, NaN for an empty array. *)
Definition np_median (l : list Q) : fl :=
  let s := np_sort l in
  let n := length s in
  if (n =? 0)%nat then NaN
  else if Nat.odd n then Some (nth (n / 2) s 0)
  else Some ((nth (n / 2 - 1) s 0 + nth (n / 2) s 0) / 2).

(** median delta wavelength *)
Definition mdwave (wave : list Q) : fl := np_median (diff wave).

Definition np_min (l : list Q) : result Q :=
  match l with
  | [] => Raise ValueError
  | a :: t => Ok (fold_left Qmin t a)
  end.

Definition np_max (l : list Q) : result Q :=
  match l with
  | [] => Raise ValueError
  | a :: t => Ok (fold_left Qmax t a)
  end.

Definition np_ptp (l : list Q) : result Q :=
  mx <- np_max l ;;
  mn <- np_min l ;;
  Ok (mx - mn).

(** [np.int] is Python's [int]: it truncates towards zero. *)
Definition py_int (x : Q) : Z := Z.quot (Qnum x) (Zpos (Qden x)).

(** [np.int(np.ptp(wave) / dwave) + 1]; the quotient is NaN for a NaN
    [dwave] or 0/0 ([ValueError]) and infinite for x/0 ([OverflowError]). *)
Definition npix_of (ptp : Q) (dwave : fl) : result Z :=
  match dwave with
  | None => Raise ValueError
  | Some d =>
      if Qeq_bool d 0 then
        (if Qeq_bool ptp 0 then Raise ValueError else Raise OverflowError)
      else Ok (py_int (ptp / d) + 1)%Z
  end.

Definition log10 (x : R) : R := (ln x / ln 10)%R.

(** [np.linspace(start, stop, num)] with its default [endpoint=True]. *)
Definition linspace (start stop : R) (num : Z) : result (list R) :=
  if (num <? 0)%Z then Raise ValueError
  else
    let div := (num - 1)%Z in
    let delta := (stop - start)%R in
    let y := map (fun k => IZR (Z.of_nat k)) (seq 0 (Z.to_nat num)) in
    let y := if (0 <? div)%Z
             then map (fun v => v * (delta / IZR div))%R y
             else map (fun v => v * delta)%R y in
    let y := map (fun v => v + start)%R y in
    Ok (if (1 <? num)%Z then setitem y (Z.to_nat num - 1) stop else y).

(** [np.logspace(start, stop, num, base=10.0)] *)
Definition logspace (start stop : R) (num : Z) : result (list R) :=
  y <- linspace start stop num ;;
  Ok (map (Rpower 10) y).

(** The grid [wave_log10] returns, as real numbers.  With [min(wave) <= 0]
    its logarithm is not a finite number and a non-empty grid has entries
    that are not finite numbers either: [NonFinite]. *)
Inductive log_grid : Type :=
| LogGrid (g : list R)
| NonFinite.

Definition wave_log10 (wave : list Q) (dwave : option Q) : result log_grid :=
  let dwave := match dwave with
               | None => mdwave wave
               | Some d => Some d
               end in
  ptp <- np_ptp wave ;;
  npix <- npix_of ptp dwave ;;
  lo <- np_min wave ;;
  hi <- np_max wave ;;
  if (npix <? 0)%Z then Raise ValueError
  else if (npix =? 0)%Z then Ok (LogGrid [])
  else if Qle_bool lo 0 then Ok NonFinite
  else
    g <- logspace (log10 (Q2R lo)) (log10 (Q2R hi)) npix ;;
    Ok (LogGrid g).

(** ** The data model of the specification *)

(** A wavelength grid is strictly increasing. *)
Fixpoint strictly_increasing (x : list Q) : bool :=
  match x with
  | a :: (b :: _) as t => Qlt_bool a b && strictly_increasing t
  | _ => true
  end.

(** Platform values used to run [rebin] on examples: the x86-64 conversion
    of NaN to an integer, and a NumPy without [np.int] (1.24 and later),
    on which [wave_log10] raises before computing anything; the examples
    pass [wave_new] explicitly. *)
Definition INT64_MIN : Z := (- 2 ^ 63)%Z.

Definition no_np_int (wave : list Q) : result (list Q) := Raise AttributeError.

(** ** Auxiliary views of the edges, used in the proofs *)

(** [x[:-1] + .5 * dx] for [x = a :: t] *)
Fixpoint mids (a : Q) (t : list Q) : list Q :=
  match t with
  | [] => []
  | b :: t' => (a + (1#2) * (b - a)) :: mids b t'
  end.

(** The edges to the right of the centre [a], [t] being the centres after
    it and [d] the gap on its left. *)
Fixpoint edges_from (a : Q) (t : list Q) (d : Q) : list Q :=
  match t with
  | [] => [a + (1#2) * d]
  | b :: t' => (a + (1#2) * (b - a)) :: edges_from b t' (b - a)
  end.

(** The interpolation nodes [wave_edge[:-1]] of a grid [a :: b :: t]. *)
Definition nodes_of (a b : Q) (t : list Q) : list Q :=
  (a - (1#2) * (b - a)) :: mids a (b :: t).

(** ** The per-pixel formulas in the words of the specification *)

(** The sum of [old[k]] over [lo <= k < hi]. *)
Definition sum_range (old : list Q) (lo hi : Z) : Q :=
  np_sum (firstn (Z.to_nat hi - Z.to_nat lo) (skipn (Z.to_nat lo) old)).

(** [sum(old[lo_floor : hi_floor]) - old[lo_floor] * lo_frac
     + old[hi_floor] * hi_frac] *)
Definition conserved_sum (old : list Q) (lo_idx_frac hi_idx_frac : Q) : Q :=
  let lo_floor := Qfloor lo_idx_frac in
  let hi_floor := Qfloor hi_idx_frac in
  let lo_frac := lo_idx_frac - inject_Z lo_floor in
  let hi_frac := hi_idx_frac - inject_Z hi_floor in
  sum_range old lo_floor hi_floor
  - nth (Z.to_nat lo_floor) old 0 * lo_frac
  + nth (Z.to_nat hi_floor) old 0 * hi_frac.

(** The value of a new pixel: the formula on a valid pixel, NaN on a
    flagged one. *)
Definition expected_value (old : list Q) (p : fl * fl) : fl :=
  match p with
  | (Some lo, Some hi) => Some (conserved_sum old lo hi)
  | _ => NaN
  end.

(** The logical OR of [old[k]] over [lo <= k <= hi]. *)
Definition or_range (old : list bool) (lo hi : Z) : bool :=
  np_any (firstn (Z.to_nat (hi + 1) - Z.to_nat lo) (skipn (Z.to_nat lo) old)).

Definition expected_mask (old : list bool) (p : fl * fl) : bool :=
  match p with
  | (Some lo, Some hi) => or_range old (Qfloor lo) (Qfloor hi)
  | _ => false
  end.

(** Every new pixel whose two edge positions are numbers has both floors
    inside an array of length [n]. *)
Definition floors_within (I : interp1d) (E : list Q) (n : nat) : Prop :=
  forall i lo hi, (i < length E - 1)%nat ->
    interp1d_call I (nth i E 0) = Some lo ->
    interp1d_call I (nth (S i) E 0) = Some hi ->
    (0 <= Qfloor lo < Z.of_nat n)%Z /\ (0 <= Qfloor hi < Z.of_nat n)%Z.

(** The arrays [rebin] appends to its result, one for each input array that
    was supplied, in the order flux, flux_err, mask. *)
Definition expected_result (pos2 : list (fl * fl)) (flux flux_err : option (list Q))
    (mask : option (list bool)) : list ndarray :=
  match flux with
  | Some flux => [FloatArr (map (expected_value flux) pos2)]
  | None => []
  end
  ++ match flux_err with
     | Some flux_err =>
         [SqrtArr (map (expected_value (map (fun e => e * e) flux_err)) pos2)]
     | None => []
     end
  ++ match mask with
     | Some mask => [BoolArr (map (expected_mask mask) pos2)]
     | None => []
     end.

(** An optional input array has the shape of the old grid. *)
Definition shape_ok {A : Type} (a : option (list A)) (wave : list Q) : bool :=
  match a with
  | Some l => (length l =? length wave)%nat
  | None => true
  end.

(** ** The inputs of [_test] *)

(** [np.arange(10)], [np.ones(10)] and [np.arange(0, 10, 2) + 0.5] *)
Definition test_wave : list Q := arange 10.
Definition test_flux : list Q := repeat 1 10.
Definition test_wave_new : list Q :=
  map (fun v => v + (1#2)) (map inject_Z [0; 2; 4; 6; 8]%Z).

(** A mask for the examples: old pixel 3 is masked. *)
Definition example_mask : list bool :=
  [false; false; false; true; false; false; false; false; false; false].

(** ** Conservation in the words of the specification *)

(** The rebinned values weighted by the widths of the new pixels, summed. *)
Definition width_weighted_sum (flux_new : list fl) (wave_new_edge : list Q) : fl :=
  fold_left fl_add
    (zip_with (fun v w => fl_mul v (Some w)) flux_new (diff wave_new_edge)) (Some 0).

(** The total width of the new grid. *)
Definition total_width (wave_new_edge : list Q) : Q :=
  last wave_new_edge 0 - hd 0 wave_new_edge.

(** The first four pixels of [test_wave_new]: a grid inside the coverage
    of [test_wave]. *)
Definition inner_wave_new : list Q := [1#2; 5#2; 9#2; 13#2].

(** A grid with positive wavelengths for the examples of [wave_log10]. *)
Definition example_wave : list Q := [1; 2; 4; 8].

(** ** Views used to state further properties *)

(** The old flux accumulated up to position [p] of the old pixel axis: the
    pixels below [floor p] in full and the fraction [p - floor p] of pixel
    [floor p]. *)
Definition cumulative_flux (old : list Q) (p : Q) : Q :=
  np_sum (firstn (Z.to_nat (Qfloor p)) old)
  + nth (Z.to_nat (Qfloor p)) old 0 * (p - inject_Z (Qfloor p)).

(** Which input an array of the result answers to, and its length. *)
Inductive array_kind : Set := FluxKind | FluxErrKind | MaskKind.

Definition kind_of (a : ndarray) : array_kind :=
  match a with
  | FloatArr _ => FluxKind
  | SqrtArr _ => FluxErrKind
  | BoolArr _ => MaskKind
  end.

Definition array_length (a : ndarray) : nat :=
  match a with
  | FloatArr l => length l
  | SqrtArr l => length l
  | BoolArr l => length l
  end.

Definition supplied_kinds (flux flux_err : option (list Q)) (mask : option (list bool))
    : list array_kind :=
  match flux with Some _ => [FluxKind] | None => [] end
  ++ match flux_err with Some _ => [FluxErrKind] | None => [] end
  ++ match mask with Some _ => [MaskKind] | None => [] end.

(** * Properties *)

(** ** Sequences *)

Lemma getitem_nth {A : Type} (l : list A) (i : Z) (d : A) :
  (0 <= i < Z.of_nat (length l))%Z ->
  getitem l i = Ok (nth (Z.to_nat i) l d).
Proof.
  intros Hi. unfold getitem.
  destruct (Z.ltb_spec i 0) as [Hneg|_]; [lia|].
  destruct (Z.leb_spec 0 i) as [_|Hneg]; [|lia].
  destruct (Z.ltb_spec i (Z.of_nat (length l))) as [_|Hbig]; [|lia].
  cbn [andb].
  destruct (nth_error l (Z.to_nat i)) as [a|] eqn:E.
  - f_equal. symmetry. now apply nth_error_nth.
  - apply nth_error_None in E. lia.
Qed.

Lemma getitem_last {A : Type} (l : list A) (d : A) :
  l <> [] -> getitem l (-1) = Ok (last l d).
Proof.
  intros Hl. destruct (exists_last Hl) as [l' [z ->]].
  unfold getitem. rewrite last_last, length_app. cbn [length].
  change (-1 <? 0)%Z with true. cbn match.
  destruct (Z.leb_spec 0 (-1 + Z.of_nat (length l' + 1))) as [_|Hneg]; [|lia].
  destruct (Z.ltb_spec (-1 + Z.of_nat (length l' + 1)) (Z.of_nat (length l' + 1)))
    as [_|Hbig]; [|lia].
  cbn [andb].
  replace (Z.to_nat (-1 + Z.of_nat (length l' + 1))) with (length l') by lia.
  rewrite nth_error_app2 by lia. rewrite Nat.sub_diag. reflexivity.
Qed.

Lemma getitem_raises {A : Type} (l : list A) (i : Z) :
  (i < - Z.of_nat (length l) \/ Z.of_nat (length l) <= i)%Z ->
  getitem l i = Raise IndexError.
Proof.
  intros Hi. unfold getitem.
  destruct (Z.ltb_spec i 0) as [Hneg|Hpos].
  - destruct (Z.leb_spec 0 (i + Z.of_nat (length l))); [lia | reflexivity].
  - destruct (Z.leb_spec 0 i); [|reflexivity].
    destruct (Z.ltb_spec i (Z.of_nat (length l))); [lia | reflexivity].
Qed.

Lemma getslice_inrange {A : Type} (l : list A) (a b : Z) :
  (0 <= a <= Z.of_nat (length l))%Z ->
  (0 <= b <= Z.of_nat (length l))%Z ->
  getslice l a b = firstn (Z.to_nat b - Z.to_nat a) (skipn (Z.to_nat a) l).
Proof.
  intros Ha Hb. unfold getslice, slice_bound.
  destruct (Z.ltb_spec a 0); [lia|]. destruct (Z.ltb_spec b 0); [lia|].
  rewrite !Z.min_l by lia. f_equal. lia.
Qed.

Lemma length_setitem {A : Type} (l : list A) (i : nat) (v : A) :
  length (setitem l i v) = length l.
Proof.
  revert i. induction l as [|a l IH]; intros [|i]; cbn; auto.
Qed.

Lemma nth_setitem {A : Type} (l : list A) (i j : nat) (v d : A) :
  (i < length l)%nat ->
  nth j (setitem l i v) d = if (j =? i)%nat then v else nth j l d.
Proof.
  revert i j. induction l as [|a l IH]; intros i j Hi; cbn in Hi; [lia|].
  destruct i as [|i], j as [|j]; cbn; auto.
  apply IH. lia.
Qed.

Lemma length_zip_with {A B C : Type} (f : A -> B -> C) (l : list A) (m : list B) :
  length (zip_with f l m) = Nat.min (length l) (length m).
Proof.
  revert m. induction l as [|a l IH]; intros [|b m]; cbn; auto.
Qed.

Lemma nth_zip_with {A B C : Type} (f : A -> B -> C) (l : list A) (m : list B)
    (i : nat) (da : A) (db : B) (dc : C) :
  (i < length l)%nat -> (i < length m)%nat ->
  nth i (zip_with f l m) dc = f (nth i l da) (nth i m db).
Proof.
  revert m i. induction l as [|a l IH]; intros [|b m] [|i] Hl Hm; cbn in *; try lia; auto.
  apply IH; lia.
Qed.

Lemma nth_combine {A B : Type} (l : list A) (m : list B) (i : nat) (da : A) (db : B) :
  (i < length l)%nat -> (i < length m)%nat ->
  nth i (combine l m) (da, db) = (nth i l da, nth i m db).
Proof.
  revert m i. induction l as [|a l IH]; intros [|b m] [|i] Hl Hm; cbn in *; try lia; auto.
  apply IH; lia.
Qed.

Lemma nth_removelast {A : Type} (l : list A) (i : nat) (d : A) :
  (i < length l - 1)%nat -> nth i (removelast l) d = nth i l d.
Proof.
  revert i. induction l as [|a l IH]; intros i Hi; cbn in Hi; [lia|].
  destruct l as [|b l]; [cbn in Hi; lia|].
  change (removelast (a :: b :: l)) with (a :: removelast (b :: l)).
  destruct i as [|i]; [reflexivity|].
  cbn [nth]. apply IH. cbn [length] in *. lia.
Qed.

Lemma length_removelast {A : Type} (l : list A) :
  length (removelast l) = (length l - 1)%nat.
Proof.
  induction l as [|a l IH]; [reflexivity|].
  destruct l as [|b l]; [reflexivity|].
  change (removelast (a :: b :: l)) with (a :: removelast (b :: l)).
  cbn [length] in *. lia.
Qed.

Lemma nth_tl {A : Type} (l : list A) (i : nat) (d : A) :
  nth i (tl l) d = nth (S i) l d.
Proof. destruct l; [destruct i|]; reflexivity. Qed.

Lemma length_tl {A : Type} (l : list A) : length (tl l) = (length l - 1)%nat.
Proof. destruct l; cbn; lia. Qed.

(** ** Order on the rationals *)

Lemma Qlt_bool_iff (a b : Q) : Qlt_bool a b = true <-> a < b.
Proof.
  unfold Qlt_bool. rewrite negb_true_iff. split.
  - intros H. apply Qnot_le_lt. intros Hle. apply Qle_bool_iff in Hle. congruence.
  - intros H. destruct (Qle_bool b a) eqn:E; [|reflexivity].
    apply Qle_bool_iff in E. exfalso. apply (Qlt_not_le _ _ H E).
Qed.

Lemma Qlt_bool_false (a b : Q) : Qlt_bool a b = false <-> b <= a.
Proof.
  unfold Qlt_bool. rewrite negb_false_iff. apply Qle_bool_iff.
Qed.

Lemma strictly_increasing_cons (a b : Q) (t : list Q) :
  strictly_increasing (a :: b :: t) = true <->
  a < b /\ strictly_increasing (b :: t) = true.
Proof.
  change (strictly_increasing (a :: b :: t))
    with (Qlt_bool a b && strictly_increasing (b :: t)).
  rewrite andb_true_iff, Qlt_bool_iff. reflexivity.
Qed.

Lemma strictly_increasing_tail (a : Q) (t : list Q) :
  strictly_increasing (a :: t) = true -> strictly_increasing t = true.
Proof.
  destruct t as [|b t]; [reflexivity|].
  intros H. now apply strictly_increasing_cons in H.
Qed.

Lemma strictly_increasing_hd (a : Q) (t : list Q) (j : nat) :
  strictly_increasing (a :: t) = true -> (j < length t)%nat -> a < nth j t 0.
Proof.
  revert a j. induction t as [|b t IH]; intros a j H Hj; cbn in Hj; [lia|].
  apply strictly_increasing_cons in H. destruct H as [Hab Ht].
  destruct j as [|j]; [exact Hab|].
  cbn [nth]. apply Qlt_trans with b; [exact Hab|]. apply IH; [exact Ht | lia].
Qed.

Lemma strictly_increasing_nth (x : list Q) (i j : nat) :
  strictly_increasing x = true -> (i < j)%nat -> (j < length x)%nat ->
  nth i x 0 < nth j x 0.
Proof.
  revert i j. induction x as [|a t IH]; intros i j H Hij Hj; cbn in Hj; [lia|].
  destruct j as [|j]; [lia|]. destruct i as [|i].
  - cbn [nth]. apply strictly_increasing_hd; [exact H | lia].
  - cbn [nth]. apply IH; [now apply strictly_increasing_tail in H | lia | lia].
Qed.

(** ** [center2edge] *)

Lemma zip_mids (a : Q) (t : list Q) :
  zip_with (fun c d => c + (1#2) * d) (removelast (a :: t)) (diff (a :: t)) = mids a t.
Proof.
  revert a. induction t as [|b t IH]; intros a; [reflexivity|].
  change (removelast (a :: b :: t)) with (a :: removelast (b :: t)).
  change (diff (a :: b :: t)) with ((b - a) :: diff (b :: t)).
  cbn [zip_with mids]. now rewrite IH.
Qed.

Lemma mids_edges_from (a : Q) (t : list Q) (d : Q) :
  mids a t ++ [last (a :: t) 0 + (1#2) * last (d :: diff (a :: t)) 0] = edges_from a t d.
Proof.
  revert a d. induction t as [|b t IH]; intros a d; [reflexivity|].
  change (diff (a :: b :: t)) with ((b - a) :: diff (b :: t)).
  change (last (a :: b :: t) 0) with (last (b :: t) 0).
  change (last (d :: (b - a) :: diff (b :: t)) 0) with (last ((b - a) :: diff (b :: t)) 0).
  cbn [mids edges_from app]. now rewrite IH.
Qed.

Lemma center2edge_cons2 (a b : Q) (t : list Q) :
  center2edge (a :: b :: t)
  = Ok ((a - (1#2) * (b - a)) :: edges_from a (b :: t) (b - a)).
Proof.
  unfold center2edge.
  change (diff (a :: b :: t)) with ((b - a) :: diff (b :: t)).
  rewrite (getitem_nth (a :: b :: t) 0 0) by (cbn [length]; lia).
  rewrite (getitem_nth ((b - a) :: diff (b :: t)) 0 0) by (cbn [length]; lia).
  rewrite (getitem_last (a :: b :: t) 0) by discriminate.
  rewrite (getitem_last ((b - a) :: diff (b :: t)) 0) by discriminate.
  cbn [bind Z.to_nat nth].
  change ((b - a) :: diff (b :: t)) with (diff (a :: b :: t)).
  rewrite zip_mids.
  change (last (diff (a :: b :: t)) 0) with (last ((b - a) :: diff (a :: b :: t)) 0).
  now rewrite mids_edges_from.
Qed.

Lemma center2edge_short (x : list Q) :
  (length x < 2)%nat -> center2edge x = Raise IndexError.
Proof.
  destruct x as [|a [|b t]]; cbn [length]; intros H; try lia; reflexivity.
Qed.

Lemma edges_from_split (a : Q) (t : list Q) (d : Q) :
  edges_from a t d = mids a t ++ [last (edges_from a t d) 0].
Proof.
  revert a d. induction t as [|b t IH]; intros a d; [reflexivity|].
  cbn [mids edges_from app]. rewrite (IH b (b - a)) at 1. f_equal.
  f_equal. f_equal.
  destruct (edges_from b t (b - a)) eqn:E; [|reflexivity].
  destruct t; discriminate.
Qed.

Lemma length_mids (a : Q) (t : list Q) : length (mids a t) = length t.
Proof. revert a. induction t as [|b t IH]; intros a; cbn; auto. Qed.

Lemma length_edges_from (a : Q) (t : list Q) (d : Q) :
  length (edges_from a t d) = S (length t).
Proof. revert a d. induction t as [|b t IH]; intros a d; cbn; auto. Qed.

Lemma mids_increasing (h a : Q) (t : list Q) :
  h <= a -> strictly_increasing (a :: t) = true ->
  strictly_increasing (h :: mids a t) = true.
Proof.
  revert h a. induction t as [|b t IH]; intros h a Hh H; [reflexivity|].
  apply strictly_increasing_cons in H. destruct H as [Hab Ht].
  cbn [mids]. apply strictly_increasing_cons. split.
  - lra.
  - apply IH; [lra | exact Ht].
Qed.

Lemma nodes_of_increasing (a b : Q) (t : list Q) :
  strictly_increasing (a :: b :: t) = true ->
  strictly_increasing (nodes_of a b t) = true.
Proof.
  intros H. unfold nodes_of. apply mids_increasing; [|exact H].
  apply strictly_increasing_cons in H. lra.
Qed.

Lemma last_cons2 {A : Type} (a b : A) (l : list A) (d : A) :
  last (a :: b :: l) d = last (b :: l) d.
Proof. reflexivity. Qed.

Lemma last_node_lt_last_edge (h a : Q) (t : list Q) (d : Q) :
  h <= a -> 0 < d -> strictly_increasing (a :: t) = true ->
  last (h :: mids a t) 0 < last (edges_from a t d) 0.
Proof.
  revert h a d. induction t as [|b t IH]; intros h a d Hh Hd H.
  - cbn. lra.
  - apply strictly_increasing_cons in H. destruct H as [Hab Ht].
    cbn [mids edges_from]. rewrite last_cons2.
    assert (E : last ((a + (1 # 2) * (b - a)) :: edges_from b t (b - a)) 0
                = last (edges_from b t (b - a)) 0).
    { destruct t; reflexivity. }
    rewrite E. apply IH; [lra | lra | exact Ht].
Qed.

Lemma last_is_nth {A : Type} (l : list A) (d : A) :
  last l d = nth (length l - 1) l d.
Proof.
  induction l as [|a l IH]; [reflexivity|].
  destruct l as [|b l]; [reflexivity|].
  rewrite last_cons2, IH. cbn [length]. 
  replace (S (S (length l)) - 1)%nat with (S (S (length l) - 1)) by lia.
  reflexivity.
Qed.

(** ** Sorting nodes that are already in order *)

Lemma sort_nodes_increasing (x y : list Q) :
  strictly_increasing x = true -> sort_nodes (combine x y) = combine x y.
Proof.
  revert y. induction x as [|a t IH]; intros y H; [reflexivity|].
  destruct y as [|c y]; [reflexivity|].
  cbn [combine sort_nodes]. rewrite (IH y) by (now apply strictly_increasing_tail in H).
  destruct t as [|b t]; [reflexivity|]. destruct y as [|c' y]; [reflexivity|].
  cbn [combine insert_node fst].
  apply strictly_increasing_cons in H. destruct H as [Hab _].
  assert (Hle : Qle_bool a b = true) by (apply Qle_bool_iff; lra).
  now rewrite Hle.
Qed.

Lemma make_interp1d_increasing (x y : list Q) :
  strictly_increasing x = true -> length x = length y -> (1 <= length x)%nat ->
  make_interp1d x y = Ok (Interp1d x y).
Proof.
  intros H Hlen Hpos. unfold make_interp1d.
  rewrite (proj2 (Nat.eqb_eq _ _) Hlen). cbn [negb].
  destruct (Nat.ltb_spec (length x) 1) as [Hlt|_]; [lia|].
  rewrite sort_nodes_increasing by exact H.
  f_equal. f_equal.
  - clear H Hpos. revert y Hlen. induction x as [|a x IH]; intros [|b y] Hlen;
      cbn in *; try discriminate; [reflexivity|]. f_equal. apply IH. lia.
  - clear H Hpos. revert y Hlen. induction x as [|a x IH]; intros [|b y] Hlen;
      cbn in *; try discriminate; [reflexivity|]. f_equal. apply IH. lia.
Qed.

(** ** Linear interpolation over increasing nodes *)

Lemma length_arange (n : nat) : length (arange n) = n.
Proof. unfold arange. now rewrite length_map, length_seq. Qed.

Lemma nth_arange (n k : nat) :
  (k < n)%nat -> nth k (arange n) 0 = inject_Z (Z.of_nat k).
Proof.
  intros Hk. unfold arange.
  change 0 with ((fun k => inject_Z (Z.of_nat k)) O).
  rewrite map_nth. now rewrite seq_nth.
Qed.

Lemma searchsorted_le_length (x : list Q) (v : Q) :
  (searchsorted x v <= length x)%nat.
Proof.
  induction x as [|a x IH]; cbn; [lia|]. destruct (Qlt_bool a v); lia.
Qed.

Lemma searchsorted_below (x : list Q) (v : Q) (j : nat) :
  (j < searchsorted x v)%nat -> nth j x 0 < v.
Proof.
  revert j. induction x as [|a x IH]; intros j Hj; cbn in Hj; [lia|].
  destruct (Qlt_bool a v) eqn:E; [|lia].
  destruct j as [|j]; [now apply Qlt_bool_iff | cbn [nth]; apply IH; lia].
Qed.

Lemma searchsorted_at (x : list Q) (v : Q) :
  (searchsorted x v < length x)%nat -> v <= nth (searchsorted x v) x 0.
Proof.
  induction x as [|a x IH]; cbn; [lia|].
  destruct (Qlt_bool a v) eqn:E; intros H.
  - apply IH. lia.
  - now apply Qlt_bool_false.
Qed.

Lemma searchsorted_node (x : list Q) (k : nat) :
  strictly_increasing x = true -> (k < length x)%nat ->
  searchsorted x (nth k x 0) = k.
Proof.
  intros H Hk. set (v := nth k x 0).
  pose proof (searchsorted_le_length x v) as Hle.
  destruct (Nat.lt_trichotomy (searchsorted x v) k) as [Hlt|[Heq|Hgt]].
  - exfalso.
    assert (Hs : (searchsorted x v < length x)%nat) by lia.
    pose proof (searchsorted_at x _ Hs) as Hat.
    pose proof (strictly_increasing_nth x _ k H Hlt Hk). subst v. lra.
  - exact Heq.
  - exfalso. pose proof (searchsorted_below x _ k Hgt). subst v. lra.
Qed.

(** The bracket [call_linear] picks for a value within the nodes. *)
Lemma bracket (x : list Q) (v : Q) :
  strictly_increasing x = true -> (2 <= length x)%nat ->
  nth 0 x 0 <= v -> v <= nth (length x - 1) x 0 ->
  let i := clip (searchsorted x v) 1 (length x - 1) in
  (1 <= i <= length x - 1)%nat /\
  nth (i - 1) x 0 <= v /\ v <= nth i x 0 /\ nth (i - 1) x 0 < nth i x 0.
Proof.
  intros H Hn Hlo Hhi i.
  pose proof (searchsorted_le_length x v) as Hle.
  assert (Hs : (searchsorted x v <= length x - 1)%nat).
  { destruct (Nat.eq_dec (searchsorted x v) (length x)) as [E|E]; [|lia].
    exfalso. assert (Hj : (length x - 1 < searchsorted x v)%nat) by lia.
    pose proof (searchsorted_below x v _ Hj). lra. }
  assert (Hat : v <= nth (searchsorted x v) x 0) by (apply searchsorted_at; lia).
  subst i. unfold clip.
  destruct (Nat.eq_dec (searchsorted x v) 0) as [E0|E0].
  - rewrite E0 in *. cbn [Nat.max]. rewrite Nat.min_l by lia.
    cbn [Nat.sub].
    pose proof (strictly_increasing_nth x 0 1 H ltac:(lia) ltac:(lia)).
    repeat split; try lia; lra.
  - rewrite Nat.max_l by lia. rewrite Nat.min_l by lia.
    assert (Hb : nth (searchsorted x v - 1) x 0 < v)
      by (apply searchsorted_below; lia).
    repeat split; try lia; lra.
Qed.

Lemma arange_step (i : nat) :
  (1 <= i)%nat ->
  inject_Z (Z.of_nat i) - inject_Z (Z.of_nat (i - 1)) == 1.
Proof.
  intros Hi. replace (Z.of_nat i) with (Z.of_nat (i - 1) + 1)%Z by lia.
  rewrite inject_Z_plus. ring.
Qed.

(** A linear segment of unit rise stays between its end values. *)
Lemma segment_bounds (dy w t y : Q) :
  dy == 1 -> 0 < w -> 0 <= t -> t <= w ->
  y <= dy / w * t + y /\ dy / w * t + y <= y + 1.
Proof.
  intros Hdy Hw Ht0 Htw.
  assert (E : dy / w * t + y == t / w + y) by (rewrite Hdy; field; lra).
  rewrite E.
  assert (H0 : 0 <= t / w) by (apply Qle_shift_div_l; lra).
  assert (H1 : t / w <= 1) by (apply Qle_shift_div_r; lra).
  lra.
Qed.

Lemma searchsorted_mono (x : list Q) (v v' : Q) :
  v <= v' -> (searchsorted x v <= searchsorted x v')%nat.
Proof.
  intros Hv. induction x as [|a x IH]; cbn; [lia|].
  destruct (Qlt_bool a v) eqn:E; [|lia].
  apply Qlt_bool_iff in E.
  assert (E' : Qlt_bool a v' = true) by (apply Qlt_bool_iff; lra).
  rewrite E'. lia.
Qed.

Lemma segment_mono (dy w t t' y : Q) :
  dy == 1 -> 0 < w -> t <= t' -> dy / w * t + y <= dy / w * t' + y.
Proof.
  intros Hdy Hw Ht.
  assert (E : forall u, dy / w * u + y == u / w + y) by (intros u; rewrite Hdy; field; lra).
  rewrite !E. unfold Qdiv.
  assert (Hi : 0 <= / w) by (apply Qlt_le_weak, Qinv_lt_0_compat, Hw).
  pose proof (Qmult_le_compat_r t t' (/ w) Ht Hi). lra.
Qed.

Section Interpolation.
Variable x : list Q.
Hypothesis x_increasing : strictly_increasing x = true.
Hypothesis x_length : (2 <= length x)%nat.

Let I := Interp1d x (arange (length x)).

Lemma interp_nan_iff (v : Q) :
  interp1d_call I v = NaN <-> v < nth 0 x 0 \/ nth (length x - 1) x 0 < v.
Proof.
  unfold interp1d_call. cbn [ix I].
  rewrite last_is_nth.
  replace (hd 0 x) with (nth 0 x 0) by (destruct x; reflexivity).
  destruct (Qlt_bool v (nth 0 x 0)) eqn:E1; cbn [orb].
  - apply Qlt_bool_iff in E1. split; [now left | reflexivity].
  - destruct (Qlt_bool (nth (length x - 1) x 0) v) eqn:E2.
    + apply Qlt_bool_iff in E2. split; [now right | reflexivity].
    + apply Qlt_bool_false in E1. apply Qlt_bool_false in E2.
      split; [discriminate|]. intros [H|H]; lra.
Qed.

Lemma interp_some (v : Q) :
  nth 0 x 0 <= v -> v <= nth (length x - 1) x 0 ->
  interp1d_call I v = Some (call_linear I v).
Proof.
  intros Hlo Hhi. destruct (interp1d_call I v) eqn:E.
  - unfold interp1d_call in *.
    destruct (_ || _); [discriminate | now symmetry].
  - apply interp_nan_iff in E. destruct E; lra.
Qed.

(** Within the nodes the position lies in the bracket's index interval. *)
Lemma call_linear_bracket (v : Q) :
  nth 0 x 0 <= v -> v <= nth (length x - 1) x 0 ->
  let i := clip (searchsorted x v) 1 (length x - 1) in
  inject_Z (Z.of_nat (i - 1)) <= call_linear I v /\
  call_linear I v <= inject_Z (Z.of_nat i).
Proof.
  intros Hlo Hhi i.
  destruct (bracket x v x_increasing x_length Hlo Hhi) as [Hi [Hxl [Hxh Hw]]].
  fold i in Hi, Hxl, Hxh, Hw.
  unfold call_linear. cbn [ix iy I]. fold i.
  rewrite !nth_arange by lia.
  pose proof (arange_step i ltac:(lia)) as Hdy.
  destruct (segment_bounds _ (nth i x 0 - nth (i - 1) x 0) (v - nth (i - 1) x 0)
              (inject_Z (Z.of_nat (i - 1))) Hdy ltac:(lra) ltac:(lra) ltac:(lra))
    as [B1 B2].
  split; [exact B1|]. lra.
Qed.

Lemma call_linear_range (v : Q) :
  nth 0 x 0 <= v -> v <= nth (length x - 1) x 0 ->
  0 <= call_linear I v /\ call_linear I v <= inject_Z (Z.of_nat (length x - 1)).
Proof.
  intros Hlo Hhi.
  destruct (call_linear_bracket v Hlo Hhi) as [B1 B2].
  destruct (bracket x v x_increasing x_length Hlo Hhi) as [Hi _].
  set (i := clip (searchsorted x v) 1 (length x - 1)) in *.
  assert (H0 : 0 <= inject_Z (Z.of_nat (i - 1))).
  { change 0 with (inject_Z 0). rewrite <- Zle_Qle. lia. }
  assert (H1 : inject_Z (Z.of_nat i) <= inject_Z (Z.of_nat (length x - 1))).
  { rewrite <- Zle_Qle. lia. }
  split; lra.
Qed.

(** At the k-th node the position is k. *)
Lemma call_linear_node (k : nat) :
  (k < length x)%nat -> call_linear I (nth k x 0) == inject_Z (Z.of_nat k).
Proof.
  intros Hk. unfold call_linear. cbn [ix iy I].
  rewrite searchsorted_node by assumption.
  unfold clip. destruct k as [|k].
  - cbn [Nat.max]. rewrite Nat.min_l by lia. cbn [Nat.sub].
    rewrite !nth_arange by lia. cbn [Z.of_nat]. ring.
  - rewrite Nat.max_l by lia. rewrite Nat.min_l by lia.
    rewrite !nth_arange by lia.
    pose proof (arange_step (S k) ltac:(lia)) as Hdy.
    pose proof (strictly_increasing_nth x (S k - 1) (S k) x_increasing
                  ltac:(lia) ltac:(lia)) as Hw.
    rewrite Hdy. field_simplify_eq; [|lra].
    replace (Z.of_nat (S k)) with (Z.of_nat (S k - 1) + 1)%Z by lia.
    rewrite inject_Z_plus. ring.
Qed.

Lemma call_linear_mono (v v' : Q) :
  nth 0 x 0 <= v -> v <= v' -> v' <= nth (length x - 1) x 0 ->
  call_linear I v <= call_linear I v'.
Proof.
  intros Hlo Hvv Hhi.
  destruct (call_linear_bracket v Hlo ltac:(lra)) as [_ B2].
  destruct (call_linear_bracket v' ltac:(lra) Hhi) as [B1' _].
  destruct (bracket x v x_increasing x_length Hlo ltac:(lra)) as [Hi [_ [_ Hw]]].
  destruct (bracket x v' x_increasing x_length ltac:(lra) Hhi) as [Hi' _].
  pose proof (searchsorted_mono x v v' Hvv) as Hs.
  set (i := clip (searchsorted x v) 1 (length x - 1)) in *.
  set (i' := clip (searchsorted x v') 1 (length x - 1)) in *.
  assert (Hii : (i <= i')%nat) by (subst i i'; unfold clip; lia).
  destruct (Nat.eq_dec i i') as [E|E].
  - unfold call_linear. cbn [ix iy I]. fold i i'. rewrite <- E.
    rewrite !nth_arange by lia.
    apply segment_mono; [apply arange_step; lia | lra | lra].
  - assert (Hz : inject_Z (Z.of_nat i) <= inject_Z (Z.of_nat (i' - 1))).
    { rewrite <- Zle_Qle. lia. }
    lra.
Qed.
End Interpolation.

(** ** The pixel map *)

Lemma nth_map_in {A B : Type} (f : A -> B) (l : list A) (i : nat) (d : A) (d' : B) :
  (i < length l)%nat -> nth i (map f l) d' = f (nth i l d).
Proof.
  intros Hi. rewrite (nth_indep _ d' (f d)) by (now rewrite length_map).
  apply map_nth.
Qed.

Section PixelMapFacts.
Variable nan_as_int : Z.
Variable I : interp1d.
Variable E : list Q.

Let M := project_edges nan_as_int I E.
Let lo_pos (i : nat) := interp1d_call I (nth i E 0).
Let hi_pos (i : nat) := interp1d_call I (nth (S i) E 0).
Let floor_int := floor_astype_int nan_as_int.

Lemma length_pos2 : length (wave_new_edge_pos2 M) = (length E - 1)%nat.
Proof.
  cbn. rewrite length_combine, length_removelast, length_tl, length_map. lia.
Qed.

Lemma nth_pos2 (i : nat) :
  (i < length E - 1)%nat ->
  nth i (wave_new_edge_pos2 M) (NaN, NaN) = (lo_pos i, hi_pos i).
Proof.
  intros Hi. cbn.
  rewrite nth_combine
    by (rewrite ?length_removelast, ?length_tl, length_map; lia).
  rewrite nth_removelast by (rewrite length_map; lia).
  rewrite nth_tl.
  rewrite !(nth_map_in _ _ _ 0) by lia. reflexivity.
Qed.

Lemma ipix_unfold :
  wave_new_ipix M
  = map (fun p => (floor_int (fst p), floor_int (snd p))) (wave_new_edge_pos2 M).
Proof. reflexivity. Qed.

Lemma frac_unfold :
  wave_new_frac M
  = zip_with (fun p i => (fl_sub (fst p) (Some (inject_Z (fst i))),
                          fl_sub (snd p) (Some (inject_Z (snd i)))))
      (wave_new_edge_pos2 M) (wave_new_ipix M).
Proof. reflexivity. Qed.

Lemma flags_unfold :
  flags M = map (fun p => isnan (fst p) || isnan (snd p)) (wave_new_edge_pos2 M).
Proof. reflexivity. Qed.

Lemma length_ipix : length (wave_new_ipix M) = (length E - 1)%nat.
Proof. rewrite ipix_unfold, length_map. apply length_pos2. Qed.

Lemma nth_ipix (i : nat) :
  (i < length E - 1)%nat ->
  nth i (wave_new_ipix M) (0, 0)%Z = (floor_int (lo_pos i), floor_int (hi_pos i)).
Proof.
  intros Hi. rewrite ipix_unfold.
  rewrite (nth_map_in _ _ _ (NaN, NaN)) by (rewrite length_pos2; lia).
  now rewrite nth_pos2.
Qed.

Lemma length_frac : length (wave_new_frac M) = (length E - 1)%nat.
Proof.
  rewrite frac_unfold, length_zip_with, length_ipix, length_pos2. lia.
Qed.

Lemma nth_frac (i : nat) :
  (i < length E - 1)%nat ->
  nth i (wave_new_frac M) (NaN, NaN)
  = (fl_sub (lo_pos i) (Some (inject_Z (floor_int (lo_pos i)))),
     fl_sub (hi_pos i) (Some (inject_Z (floor_int (hi_pos i))))).
Proof.
  intros Hi. rewrite frac_unfold.
  rewrite (nth_zip_with _ _ _ _ (NaN, NaN) (0, 0)%Z)
    by (rewrite ?length_pos2, ?length_ipix; lia).
  now rewrite nth_pos2, nth_ipix.
Qed.

Lemma length_flags : length (flags M) = (length E - 1)%nat.
Proof. rewrite flags_unfold, length_map. apply length_pos2. Qed.

Lemma nth_flags (i : nat) (d : bool) :
  (i < length E - 1)%nat ->
  nth i (flags M) d = isnan (lo_pos i) || isnan (hi_pos i).
Proof.
  intros Hi. rewrite flags_unfold.
  rewrite (nth_map_in _ _ _ (NaN, NaN)) by (rewrite length_pos2; lia).
  now rewrite nth_pos2.
Qed.
End PixelMapFacts.

(** ** The loops over the new pixels *)

(** A loop whose body assigns [v] to entry [ipix] when [g ipix = Some v] and
    leaves the array alone when [g ipix = None]. *)
Lemma for_enumerate_assign {A : Type}
    (body : nat -> bool -> list A -> result (list A)) (g : nat -> option A) :
  forall (fs : list bool) (start : nat) (arr : list A),
    (start + length fs <= length arr)%nat ->
    (forall k arr', (k < length fs)%nat ->
       body (start + k)%nat (nth k fs false) arr'
       = Ok (match g (start + k)%nat with
             | Some v => setitem arr' (start + k) v
             | None => arr'
             end)) ->
    exists out,
      for_enumerate body start fs arr = Ok out /\
      length out = length arr /\
      forall j d,
        nth j out d
        = if (start <=? j)%nat && (j <? start + length fs)%nat
          then match g j with Some v => v | None => nth j arr d end
          else nth j arr d.
Proof.
  induction fs as [|this_flag rest IH]; intros start arr Hlen Hbody.
  - exists arr. repeat split. intros j d. cbn [length].
    destruct (Nat.leb_spec start j), (Nat.ltb_spec j (start + 0)); cbn; try reflexivity; lia.
  - cbn [length] in Hlen. cbn [for_enumerate].
    pose proof (Hbody O arr ltac:(cbn; lia)) as H0.
    rewrite Nat.add_0_r in H0. cbn [nth] in H0. rewrite H0. cbn [bind].
    set (arr1 := match g start with Some v => setitem arr start v | None => arr end).
    assert (L1 : length arr1 = length arr).
    { subst arr1. destruct (g start); [apply length_setitem | reflexivity]. }
    destruct (IH (S start) arr1) as [out [Hout [Lout Hnth]]].
    + rewrite L1. lia.
    + intros k arr' Hk. specialize (Hbody (S k) arr' ltac:(cbn; lia)).
      cbn [nth] in Hbody. replace (start + S k)%nat with (S start + k)%nat in Hbody by lia.
      exact Hbody.
    + exists out. split; [exact Hout|]. split; [lia|].
      intros j d. rewrite Hnth. cbn [length].
      destruct (Nat.eq_dec j start) as [->|Hne].
      * destruct (Nat.leb_spec (S start) start); [lia|].
        destruct (Nat.leb_spec start start); [|lia].
        destruct (Nat.ltb_spec start (start + S (length rest))); [|lia].
        cbn [andb]. subst arr1. destruct (g start) as [v|]; [|reflexivity].
        rewrite nth_setitem by lia. now rewrite Nat.eqb_refl.
      * assert (E1 : nth j arr1 d = nth j arr d).
        { subst arr1. destruct (g start) as [v|]; [|reflexivity].
          rewrite nth_setitem by lia.
          destruct (Nat.eqb_spec j start); [lia | reflexivity]. }
        rewrite E1.
        destruct (Nat.leb_spec (S start) j), (Nat.ltb_spec j (S start + length rest)),
          (Nat.leb_spec start j), (Nat.ltb_spec j (start + S (length rest)));
          cbn [andb]; try lia; reflexivity.
Qed.

Lemma pixel_sum_inrange (a : list Q) (lo hi : Z) (flo fhi : Q) :
  (0 <= lo < Z.of_nat (length a))%Z -> (0 <= hi < Z.of_nat (length a))%Z ->
  pixel_sum a (lo, hi) (Some flo, Some fhi)
  = Ok (Some (sum_range a lo hi
              - nth (Z.to_nat lo) a 0 * flo + nth (Z.to_nat hi) a 0 * fhi)).
Proof.
  intros Hlo Hhi. unfold pixel_sum. cbn [fst snd].
  rewrite (getitem_nth a lo 0) by exact Hlo.
  rewrite (getitem_nth a hi 0) by exact Hhi.
  rewrite getslice_inrange by lia. reflexivity.
Qed.

(** A position that is a number floors to an index of the old grid. *)
Lemma floor_in_range (x : list Q) (v p : Q) :
  strictly_increasing x = true -> (2 <= length x)%nat ->
  interp1d_call (Interp1d x (arange (length x))) v = Some p ->
  (0 <= Qfloor p < Z.of_nat (length x))%Z.
Proof.
  intros Hx Hn Hp.
  assert (Hnot : interp1d_call (Interp1d x (arange (length x))) v <> NaN)
    by (rewrite Hp; discriminate).
  assert (Hlo : nth 0 x 0 <= v).
  { apply Qnot_lt_le. intros H. apply Hnot. apply interp_nan_iff; auto. }
  assert (Hhi : v <= nth (length x - 1) x 0).
  { apply Qnot_lt_le. intros H. apply Hnot. apply interp_nan_iff; auto. }
  rewrite (interp_some x Hx Hn v Hlo Hhi) in Hp. injection Hp as <-.
  destruct (call_linear_range x Hx Hn v Hlo Hhi) as [R0 R1].
  apply Qfloor_resp_le in R0. apply Qfloor_resp_le in R1.
  rewrite Qfloor_Z in R1. change (Qfloor 0) with 0%Z in R0. lia.
Qed.

Section Loops.
Variable nan_as_int : Z.
Variable I : interp1d.
Variable E : list Q.

Let M := project_edges nan_as_int I E.

Lemma flux_loop (a : list Q) :
  floors_within I E (length a) ->
  for_enumerate (rebin_flux_body M a) 0 (flags M) (repeat (Some 0) (length E - 1))
  = Ok (map (expected_value a) (wave_new_edge_pos2 M)).
Proof.
  intros Hin.
  destruct (for_enumerate_assign (rebin_flux_body M a)
              (fun i => Some (expected_value a (nth i (wave_new_edge_pos2 M) (NaN, NaN))))
              (flags M) 0 (repeat (Some 0) (length E - 1)))
    as [out [Hout [Lout Hnth]]].
  - subst M. rewrite length_flags, repeat_length. lia.
  - intros k arr' Hk. subst M. rewrite length_flags in Hk.
    cbn [Nat.add]. unfold rebin_flux_body.
    rewrite nth_flags, nth_ipix, nth_frac, nth_pos2 by exact Hk.
    specialize (Hin k).
    destruct (interp1d_call I (nth k E 0)) as [lo|];
      destruct (interp1d_call I (nth (S k) E 0)) as [hi|]; cbn [isnan orb negb];
      try reflexivity.
    destruct (Hin lo hi Hk eq_refl eq_refl) as [Hlo Hhi].
    cbn [floor_astype_int fl_sub fl_lift2].
    rewrite pixel_sum_inrange by assumption. reflexivity.
  - rewrite Hout. f_equal.
    apply (nth_ext _ _ NaN NaN).
    + subst M. rewrite Lout, repeat_length, length_map, length_pos2. reflexivity.
    + intros j Hj. rewrite Lout, repeat_length in Hj. rewrite Hnth.
      subst M. rewrite length_flags. cbn [Nat.add].
      destruct (Nat.ltb_spec j (length E - 1)); [|lia]. cbn [Nat.leb andb].
      symmetry. apply nth_map_in. rewrite length_pos2. exact Hj.
Qed.

Lemma mask_loop (mask : list bool) :
  floors_within I E (length mask) ->
  for_enumerate (rebin_mask_body M mask) 0 (flags M) (repeat false (length E - 1))
  = Ok (map (expected_mask mask) (wave_new_edge_pos2 M)).
Proof.
  intros Hin.
  destruct (for_enumerate_assign (rebin_mask_body M mask)
              (fun i => if nth i (flags M) false then None
                        else Some (expected_mask mask
                                     (nth i (wave_new_edge_pos2 M) (NaN, NaN))))
              (flags M) 0 (repeat false (length E - 1)))
    as [out [Hout [Lout Hnth]]].
  - subst M. rewrite length_flags, repeat_length. lia.
  - intros k arr' Hk. subst M. rewrite length_flags in Hk.
    cbn [Nat.add]. unfold rebin_mask_body.
    rewrite nth_flags, nth_ipix, nth_pos2 by exact Hk.
    specialize (Hin k).
    destruct (interp1d_call I (nth k E 0)) as [lo|];
      destruct (interp1d_call I (nth (S k) E 0)) as [hi|]; cbn [isnan orb negb];
      try reflexivity.
    destruct (Hin lo hi Hk eq_refl eq_refl) as [Hlo Hhi].
    cbn [floor_astype_int fst snd expected_mask]. unfold or_range.
    rewrite getslice_inrange by lia. reflexivity.
  - rewrite Hout. f_equal.
    apply (nth_ext _ _ false false).
    + subst M. rewrite Lout, repeat_length, length_map, length_pos2. reflexivity.
    + intros j Hj. rewrite Lout, repeat_length in Hj. rewrite Hnth.
      subst M. rewrite length_flags. cbn [Nat.add].
      destruct (Nat.ltb_spec j (length E - 1)); [|lia]. cbn [Nat.leb andb].
      rewrite (nth_map_in _ _ _ (NaN, NaN)) by (rewrite length_pos2; exact Hj).
      rewrite nth_flags, nth_pos2 by exact Hj.
      destruct (interp1d_call I (nth j E 0)) as [lo|];
        destruct (interp1d_call I (nth (S j) E 0)) as [hi|]; cbn [isnan orb];
        try reflexivity; cbn [expected_mask]; now rewrite nth_repeat.
Qed.
End Loops.

(** ** [rebin] on an increasing old grid *)

Lemma removelast_edges (e0 a : Q) (t : list Q) (d : Q) :
  removelast (e0 :: edges_from a t d) = e0 :: mids a t.
Proof.
  rewrite (edges_from_split a t d).
  change (e0 :: mids a t ++ [last (edges_from a t d) 0])
    with ((e0 :: mids a t) ++ [last (edges_from a t d) 0]).
  apply removelast_last.
Qed.

Section IncreasingGrid.
Variable nan_as_int : Z.
Variable wave_log10_float : list Q -> result (list Q).
Variables wave wave_new : list Q.
Hypothesis wave_increasing : strictly_increasing wave = true.
Hypothesis wave_length : (2 <= length wave)%nat.
Hypothesis wave_new_length : (2 <= length wave_new)%nat.

(** The edges of both grids exist, the old nodes are increasing and lie
    below the outermost old edge, and the interpolant is built on them. *)
Lemma grids_ok :
  exists wave_edge wave_new_edge,
    center2edge wave = Ok wave_edge /\
    center2edge wave_new = Ok wave_new_edge /\
    length wave_edge = S (length wave) /\
    length wave_new_edge = S (length wave_new) /\
    strictly_increasing (removelast wave_edge) = true /\
    length (removelast wave_edge) = length wave /\
    nth (length wave - 1) wave_edge 0 < nth (length wave) wave_edge 0 /\
    make_interp1d (removelast wave_edge) (arange (length wave))
    = Ok (Interp1d (removelast wave_edge) (arange (length wave))).
Proof.
  destruct wave as [|a [|b t]]; cbn [length] in wave_length; try lia.
  destruct wave_new as [|a' [|b' t']]; cbn [length] in wave_new_length; try lia.
  rewrite !center2edge_cons2.
  eexists. eexists. split; [reflexivity|]. split; [reflexivity|].
  pose proof (nodes_of_increasing a b t wave_increasing) as Hinc.
  assert (Hlen : length (nodes_of a b t) = S (S (length t))).
  { unfold nodes_of. cbn [length]. now rewrite length_mids. }
  rewrite removelast_edges. fold (nodes_of a b t).
  repeat split.
  - cbn [length]. now rewrite length_edges_from.
  - cbn [length]. now rewrite length_edges_from.
  - exact Hinc.
  - exact Hlen.
  - assert (Hab : a < b) by (now apply strictly_increasing_cons in wave_increasing).
    pose proof (last_node_lt_last_edge (a - (1#2) * (b - a)) a (b :: t) (b - a)
                  ltac:(lra) ltac:(lra) wave_increasing) as Hlast.
    fold (nodes_of a b t) in Hlast.
    rewrite !last_is_nth in Hlast. rewrite Hlen, length_edges_from in Hlast.
    cbn [length] in *.
    replace (S (S (length t)) - 1)%nat with (S (length t)) in * by lia.
    rewrite <- (nth_removelast (_ :: edges_from a (b :: t) (b - a)))
      by (cbn [length]; rewrite length_edges_from; cbn [length]; lia).
    rewrite removelast_edges. fold (nodes_of a b t).
    cbn [nth]. exact Hlast.
  - apply make_interp1d_increasing; [exact Hinc | | lia].
    now rewrite Hlen, length_arange.
Qed.
End IncreasingGrid.

Lemma floors_within_increasing (x E : list Q) (n : nat) :
  strictly_increasing x = true -> (2 <= length x)%nat -> n = length x ->
  floors_within (Interp1d x (arange n)) E n.
Proof.
  intros Hx Hn -> i lo hi _ Hlo Hhi.
  split; eapply floor_in_range; eauto.
Qed.

(** On an increasing old grid [rebin] fails on the first array of the wrong
    shape and otherwise returns the expected arrays. *)
Lemma rebin_increasing_shapes (nan_as_int : Z)
    (wave_log10_float : list Q -> result (list Q))
    (wave : list Q) (flux flux_err : option (list Q)) (mask : option (list bool))
    (wave_new : list Q) :
  strictly_increasing wave = true ->
  (2 <= length wave)%nat -> (2 <= length wave_new)%nat ->
  exists wave_edge wave_new_edge,
    center2edge wave = Ok wave_edge /\
    center2edge wave_new = Ok wave_new_edge /\
    map_pixels nan_as_int wave wave_new
    = Ok (project_edges nan_as_int
            (Interp1d (removelast wave_edge) (arange (length wave))) wave_new_edge) /\
    rebin nan_as_int wave_log10_float wave flux flux_err mask (Some wave_new)
    = if shape_ok flux wave && shape_ok flux_err wave && shape_ok mask wave
      then Ok (expected_result
                 (wave_new_edge_pos2
                    (project_edges nan_as_int
                       (Interp1d (removelast wave_edge) (arange (length wave)))
                       wave_new_edge))
                 flux flux_err mask)
      else Raise AssertionError.
Proof.
  intros Hinc Hn Hm.
  destruct (grids_ok wave wave_new Hinc Hn Hm)
    as [wave_edge [wave_new_edge [E1 [E2 [L1 [L2 [Xinc [Xlen [_ EI]]]]]]]]].
  exists wave_edge, wave_new_edge.
  split; [exact E1|]. split; [exact E2|].
  assert (EM : map_pixels nan_as_int wave wave_new
               = Ok (project_edges nan_as_int
                       (Interp1d (removelast wave_edge) (arange (length wave)))
                       wave_new_edge)).
  { unfold map_pixels. rewrite E1, E2. cbn [bind]. rewrite EI. reflexivity. }
  split; [exact EM|].
  assert (FW : floors_within (Interp1d (removelast wave_edge) (arange (length wave)))
                 wave_new_edge (length wave)).
  { apply floors_within_increasing; [exact Xinc | lia | now symmetry]. }
  assert (LM : length wave_new = (length wave_new_edge - 1)%nat) by lia.
  unfold rebin. cbn [bind]. rewrite EM. cbn [bind]. rewrite LM.
  unfold expected_result.
  destruct flux as [flux|]; cbn [shape_ok andb];
    [destruct (Nat.eqb_spec (length flux) (length wave)) as [Lf|_];
     cbn [negb andb bind]; [|reflexivity];
     rewrite flux_loop by (now rewrite Lf); cbn [bind app]|];
    (destruct flux_err as [flux_err|]; cbn [shape_ok andb];
     [rewrite length_map;
      destruct (Nat.eqb_spec (length flux_err) (length wave)) as [Le|_];
      cbn [negb andb bind]; [|reflexivity];
      rewrite flux_loop by (now rewrite length_map, Le); cbn [bind app]|]);
    (destruct mask as [mask|]; cbn [shape_ok andb]; [|reflexivity];
     destruct (Nat.eqb_spec (length mask) (length wave)) as [Lm|_];
     cbn [negb andb bind]; [|reflexivity];
     rewrite mask_loop by (now rewrite Lm); reflexivity).
Qed.

Lemma rebin_increasing (nan_as_int : Z) (wave_log10_float : list Q -> result (list Q))
    (wave : list Q) (flux flux_err : option (list Q)) (mask : option (list bool))
    (wave_new : list Q) :
  strictly_increasing wave = true ->
  (2 <= length wave)%nat -> (2 <= length wave_new)%nat ->
  shape_ok flux wave = true -> shape_ok flux_err wave = true ->
  shape_ok mask wave = true ->
  exists wave_edge wave_new_edge,
    center2edge wave = Ok wave_edge /\
    center2edge wave_new = Ok wave_new_edge /\
    map_pixels nan_as_int wave wave_new
    = Ok (project_edges nan_as_int
            (Interp1d (removelast wave_edge) (arange (length wave))) wave_new_edge) /\
    rebin nan_as_int wave_log10_float wave flux flux_err mask (Some wave_new)
    = Ok (expected_result
            (wave_new_edge_pos2
               (project_edges nan_as_int
                  (Interp1d (removelast wave_edge) (arange (length wave))) wave_new_edge))
            flux flux_err mask).
Proof.
  intros Hinc Hn Hm Sf Se Sm.
  destruct (rebin_increasing_shapes nan_as_int wave_log10_float wave flux flux_err mask
              wave_new Hinc Hn Hm)
    as [wave_edge [wave_new_edge [E1 [E2 [EM ER]]]]].
  rewrite Sf, Se, Sm in ER. now exists wave_edge, wave_new_edge.
Qed.

(** The old edges under the interpolant: the k-th of the first N maps to k
    and the outermost one to NaN. *)
Lemma edge_index_facts (wave wave_new : list Q) :
  strictly_increasing wave = true ->
  (2 <= length wave)%nat -> (2 <= length wave_new)%nat ->
  exists wave_edge,
    center2edge wave = Ok wave_edge /\
    length wave_edge = S (length wave) /\
    (forall k, (k < length wave)%nat ->
       exists p,
         interp1d_call (Interp1d (removelast wave_edge) (arange (length wave)))
           (nth k wave_edge 0) = Some p /\
         p == inject_Z (Z.of_nat k)) /\
    interp1d_call (Interp1d (removelast wave_edge) (arange (length wave)))
      (nth (length wave) wave_edge 0) = NaN.
Proof.
  intros Hinc Hn Hm.
  destruct (grids_ok wave wave_new Hinc Hn Hm)
    as [wave_edge [wave_new_edge [E1 [E2 [L1 [L2 [Xinc [Xlen [Hout EI]]]]]]]]].
  set (x := removelast wave_edge) in *.
  assert (Hx2 : (2 <= length x)%nat) by lia.
  assert (Hnth : forall k, (k < length wave)%nat -> nth k x 0 = nth k wave_edge 0).
  { intros k Hk. subst x. apply nth_removelast. lia. }
  exists wave_edge. split; [exact E1|]. split; [exact L1|].
  rewrite <- Xlen. split.
  - intros k Hk. rewrite <- Hnth by lia.
    exists (call_linear (Interp1d x (arange (length x))) (nth k x 0)).
    split; [|now apply call_linear_node].
    apply interp_some; try assumption.
    + destruct k as [|k]; [apply Qle_refl|].
      apply Qlt_le_weak, strictly_increasing_nth; [assumption | lia | lia].
    + destruct (Nat.eq_dec k (length x - 1)) as [->|Hne]; [apply Qle_refl|].
      apply Qlt_le_weak, strictly_increasing_nth; [assumption | lia | lia].
  - apply interp_nan_iff; try assumption. right.
    rewrite Hnth by lia. rewrite Xlen. exact Hout.
Qed.

(** * The claims *)

(** ** C1: the concrete scenario *)

(** C1, as the code has it.  For [wave = [0..9]], ten unit fluxes and
    [newWave = [0.5, 2.5, 4.5, 6.5, 8.5]], [rebin] returns one array whose
    first four entries are the number 2 and whose fifth entry is NaN: the
    upper edge 9.5 of the last new pixel lies beyond the last interpolation
    node 8.5. *)
Theorem rebin_test_scenario (nan_as_int : Z) (wave_log10_float : list Q -> result (list Q)) :
  exists flux_new,
    rebin nan_as_int wave_log10_float test_wave (Some test_flux) None None
      (Some test_wave_new) = Ok [FloatArr flux_new] /\
    Forall2 fl_eq flux_new [Some 2; Some 2; Some 2; Some 2; NaN].
Proof.
  eexists. split.
  - vm_compute. reflexivity.
  - repeat constructor; vm_compute; reflexivity.
Qed.

(** C1 as stated fails: the returned array is not within any tolerance of
    five twos, its last entry being NaN. *)
Lemma rebin_test_scenario_last_nan :
  ~ exists tol flux_new,
      rebin INT64_MIN no_np_int test_wave (Some test_flux) None None
        (Some test_wave_new) = Ok [FloatArr flux_new] /\
      Forall2 (close_to tol) flux_new [2; 2; 2; 2; 2].
Proof.
  intros [tol [flux_new [Hr Hall]]].
  vm_compute in Hr. injection Hr as <-.
  repeat match goal with
         | H : Forall2 _ (_ :: _) _ |- _ => inversion H; subst; clear H
         end.
  match goal with H : close_to _ None _ |- _ => exact H end.
Qed.

(** ** C3: the map from edges to old pixel indices *)

(** C3.  On an increasing old grid of N pixels the interpolant is built on
    the first N old edges paired with 0..N-1 (the k-th of them maps to k);
    a position maps to NaN exactly when it lies outside
    [old_edge[0], old_edge[N-1]], the outermost old edge included, and
    nothing is raised; a new pixel is flagged exactly when one of its two
    mapped edges is NaN. *)
Theorem edge_map_nan_outside (nan_as_int : Z) (wave wave_new : list Q) :
  strictly_increasing wave = true ->
  (2 <= length wave)%nat -> (2 <= length wave_new)%nat ->
  exists wave_edge wave_new_edge I M,
    center2edge wave = Ok wave_edge /\
    center2edge wave_new = Ok wave_new_edge /\
    make_interp1d (removelast wave_edge) (arange (length wave)) = Ok I /\
    map_pixels nan_as_int wave wave_new = Ok M /\
    ix I = firstn (length wave) wave_edge /\
    iy I = arange (length wave) /\
    (forall k, (k < length wave)%nat ->
       fl_eq (interp1d_call I (nth k wave_edge 0)) (Some (inject_Z (Z.of_nat k)))) /\
    (forall q, interp1d_call I q = NaN <->
               q < nth 0 wave_edge 0 \/ nth (length wave - 1) wave_edge 0 < q) /\
    interp1d_call I (nth (length wave) wave_edge 0) = NaN /\
    length (flags M) = length wave_new /\
    (forall i, (i < length wave_new)%nat ->
       nth i (wave_new_edge_pos2 M) (NaN, NaN)
       = (interp1d_call I (nth i wave_new_edge 0),
          interp1d_call I (nth (S i) wave_new_edge 0)) /\
       (nth i (flags M) false = true <->
        fst (nth i (wave_new_edge_pos2 M) (NaN, NaN)) = NaN \/
        snd (nth i (wave_new_edge_pos2 M) (NaN, NaN)) = NaN)).
Proof.
  intros Hinc Hn Hm.
  destruct (grids_ok wave wave_new Hinc Hn Hm)
    as [wave_edge [wave_new_edge [E1 [E2 [L1 [L2 [Xinc [Xlen [Hout EI]]]]]]]]].
  set (x := removelast wave_edge) in *.
  assert (Hx2 : (2 <= length x)%nat) by lia.
  assert (Hnth : forall k, (k < length wave)%nat -> nth k x 0 = nth k wave_edge 0).
  { intros k Hk. subst x. apply nth_removelast. lia. }
  exists wave_edge, wave_new_edge, (Interp1d x (arange (length wave))),
    (project_edges nan_as_int (Interp1d x (arange (length wave))) wave_new_edge).
  split; [exact E1|]. split; [exact E2|]. split; [exact EI|].
  split. { unfold map_pixels. rewrite E1, E2. cbn [bind]. fold x. now rewrite EI. }
  split. { cbn [ix]. subst x. rewrite removelast_firstn_len. f_equal. lia. }
  split; [reflexivity|].
  rewrite <- Xlen.
  split.
  { intros k Hk. rewrite <- Hnth by lia.
    rewrite interp_some; try assumption.
    - cbn [fl_eq]. now apply call_linear_node.
    - destruct k as [|k]; [apply Qle_refl|].
      apply Qlt_le_weak, strictly_increasing_nth; [assumption | lia | lia].
    - destruct (Nat.eq_dec k (length x - 1)) as [->|Hne]; [apply Qle_refl|].
      apply Qlt_le_weak, strictly_increasing_nth; [assumption | lia | lia]. }
  split.
  { intros q. rewrite interp_nan_iff by assumption.
    rewrite !Hnth by lia. reflexivity. }
  split.
  { apply interp_nan_iff; try assumption. right.
    rewrite Hnth by lia. rewrite Xlen. exact Hout. }
  split. { rewrite length_flags. lia. }
  intros i Hi.
  rewrite nth_pos2 by lia. split; [reflexivity|].
  rewrite nth_flags by lia. cbn [fst snd].
  destruct (interp1d_call _ (nth i wave_new_edge 0)),
    (interp1d_call _ (nth (S i) wave_new_edge 0)); cbn;
    split; intros H; try reflexivity; try discriminate; auto;
    destruct H; discriminate.
Qed.

Lemma edge_map_nan_outside_witness :
  strictly_increasing test_wave = true /\
  (2 <= length test_wave)%nat /\ (2 <= length test_wave_new)%nat /\
  exists wave_edge I,
    center2edge test_wave = Ok wave_edge /\
    make_interp1d (removelast wave_edge) (arange (length test_wave)) = Ok I /\
    interp1d_call I (nth (length test_wave) wave_edge 0) = NaN.
Proof.
  assert (H1 : strictly_increasing test_wave = true) by (vm_compute; reflexivity).
  assert (H2 : (2 <= length test_wave)%nat) by (vm_compute; lia).
  assert (H3 : (2 <= length test_wave_new)%nat) by (vm_compute; lia).
  split; [exact H1|]. split; [exact H2|]. split; [exact H3|].
  destruct (edge_map_nan_outside INT64_MIN test_wave test_wave_new H1 H2 H3)
    as [wave_edge [_ [I [_ [E1 [_ [EI [_ [_ [_ [_ [_ [Hlast _]]]]]]]]]]]]].
  exists wave_edge, I. auto.
Defined.

(** ** C10: the floored indices of a valid pixel *)

(** C10.  With an increasing old grid and both grids of length at least 2,
    both floored indices of every unflagged new pixel lie in
    [0, len(wave) - 1]; [rebin] then returns without an [IndexError], and
    what it returns does not depend on the integer that flooring a NaN
    position yields. *)
Theorem valid_pixel_indices_in_bounds (nan_as_int nan_as_int' : Z)
    (wave_log10_float : list Q -> result (list Q)) (wave wave_new : list Q)
    (flux flux_err : option (list Q)) (mask : option (list bool)) :
  strictly_increasing wave = true ->
  (2 <= length wave)%nat -> (2 <= length wave_new)%nat ->
  shape_ok flux wave = true -> shape_ok flux_err wave = true ->
  shape_ok mask wave = true ->
  exists M r,
    map_pixels nan_as_int wave wave_new = Ok M /\
    (forall i, (i < length wave_new)%nat -> nth i (flags M) true = false ->
       (0 <= fst (nth i (wave_new_ipix M) (0, 0)%Z) <= Z.of_nat (length wave) - 1)%Z /\
       (0 <= snd (nth i (wave_new_ipix M) (0, 0)%Z) <= Z.of_nat (length wave) - 1)%Z) /\
    rebin nan_as_int wave_log10_float wave flux flux_err mask (Some wave_new) = Ok r /\
    rebin nan_as_int' wave_log10_float wave flux flux_err mask (Some wave_new) = Ok r.
Proof.
  intros Hinc Hn Hm Sf Se Sm.
  destruct (rebin_increasing nan_as_int wave_log10_float wave flux flux_err mask
              wave_new Hinc Hn Hm Sf Se Sm)
    as [wave_edge [wave_new_edge [E1 [E2 [EM ER]]]]].
  destruct (rebin_increasing nan_as_int' wave_log10_float wave flux flux_err mask
              wave_new Hinc Hn Hm Sf Se Sm)
    as [wave_edge' [wave_new_edge' [E1' [E2' [_ ER']]]]].
  assert (wave_edge' = wave_edge) by congruence.
  assert (wave_new_edge' = wave_new_edge) by congruence. subst.
  destruct (grids_ok wave wave_new Hinc Hn Hm)
    as [we [wne [E1g [E2g [L1 [L2 [Xinc [Xlen _]]]]]]]].
  assert (we = wave_edge) by congruence.
  assert (wne = wave_new_edge) by congruence. subst.
  eexists. eexists. split; [exact EM|]. split; [|split; [exact ER | exact ER']].
  intros i Hi Hflag.
  rewrite nth_ipix by lia. rewrite nth_flags in Hflag by lia.
  pose proof (floors_within_increasing (removelast wave_edge) wave_new_edge
                (length wave) Xinc ltac:(lia) ltac:(lia) i) as FW.
  destruct (interp1d_call _ (nth i wave_new_edge 0)) as [lo|]; [|discriminate].
  destruct (interp1d_call _ (nth (S i) wave_new_edge 0)) as [hi|]; [|discriminate].
  destruct (FW lo hi ltac:(lia) eq_refl eq_refl) as [Hlo Hhi].
  cbn [fst snd floor_astype_int]. lia.
Qed.

Lemma valid_pixel_indices_in_bounds_witness :
  exists M r,
    map_pixels INT64_MIN test_wave test_wave_new = Ok M /\
    (forall i, (i < length test_wave_new)%nat -> nth i (flags M) true = false ->
       (0 <= fst (nth i (wave_new_ipix M) (0, 0)%Z) <= Z.of_nat (length test_wave) - 1)%Z /\
       (0 <= snd (nth i (wave_new_ipix M) (0, 0)%Z) <= Z.of_nat (length test_wave) - 1)%Z) /\
    rebin INT64_MIN no_np_int test_wave (Some test_flux) (Some test_flux)
      (Some example_mask) (Some test_wave_new) = Ok r /\
    rebin 0%Z no_np_int test_wave (Some test_flux) (Some test_flux)
      (Some example_mask) (Some test_wave_new) = Ok r.
Proof.
  apply (valid_pixel_indices_in_bounds INT64_MIN 0%Z no_np_int test_wave test_wave_new
           (Some test_flux) (Some test_flux) (Some example_mask));
    vm_compute; try reflexivity; lia.
Defined.

(** ** C4, C5, C6: what a new pixel receives *)

Lemma flag_false_positions (nan_as_int : Z) (I : interp1d) (E : list Q) (i : nat) :
  (i < length E - 1)%nat ->
  nth i (flags (project_edges nan_as_int I E)) true = false ->
  exists lo hi,
    nth i (wave_new_edge_pos2 (project_edges nan_as_int I E)) (NaN, NaN)
    = (Some lo, Some hi).
Proof.
  intros Hi Hf. rewrite nth_flags in Hf by exact Hi. rewrite nth_pos2 by exact Hi.
  destruct (interp1d_call I (nth i E 0)) as [lo|]; [|discriminate].
  destruct (interp1d_call I (nth (S i) E 0)) as [hi|]; [|discriminate].
  now exists lo, hi.
Qed.

Lemma flag_true_positions (nan_as_int : Z) (I : interp1d) (E : list Q) (i : nat) :
  (i < length E - 1)%nat ->
  nth i (flags (project_edges nan_as_int I E)) false = true ->
  forall lo hi,
    nth i (wave_new_edge_pos2 (project_edges nan_as_int I E)) (NaN, NaN)
    <> (Some lo, Some hi).
Proof.
  intros Hi Hf lo hi. rewrite nth_flags in Hf by exact Hi. rewrite nth_pos2 by exact Hi.
  destruct (interp1d_call I (nth i E 0)); [|discriminate].
  destruct (interp1d_call I (nth (S i) E 0)); discriminate.
Qed.

(** C4.  On every unflagged new pixel, with mapped positions
    [(lo_idx_frac, hi_idx_frac)], the rebinned flux is
    [sum(old_flux[lo_floor:hi_floor]) - old_flux[lo_floor] * lo_frac
     + old_flux[hi_floor] * hi_frac], and the rebinned error is the square
    root of the same formula on the squared errors. *)
Theorem valid_pixel_flux_formula (nan_as_int : Z)
    (wave_log10_float : list Q -> result (list Q)) (wave flux flux_err : list Q)
    (mask : option (list bool)) (wave_new : list Q) :
  strictly_increasing wave = true ->
  (2 <= length wave)%nat -> (2 <= length wave_new)%nat ->
  length flux = length wave -> length flux_err = length wave ->
  shape_ok mask wave = true ->
  exists M flux_new flux_err2_new rest,
    map_pixels nan_as_int wave wave_new = Ok M /\
    rebin nan_as_int wave_log10_float wave (Some flux) (Some flux_err) mask
      (Some wave_new) = Ok (FloatArr flux_new :: SqrtArr flux_err2_new :: rest) /\
    forall i, (i < length wave_new)%nat -> nth i (flags M) true = false ->
      exists lo_idx_frac hi_idx_frac,
        nth i (wave_new_edge_pos2 M) (NaN, NaN) = (Some lo_idx_frac, Some hi_idx_frac) /\
        nth i flux_new NaN = Some (conserved_sum flux lo_idx_frac hi_idx_frac) /\
        nth i (float_entries (SqrtArr flux_err2_new)) None
        = np_sqrt (Some (conserved_sum (map (fun e => e * e) flux_err)
                           lo_idx_frac hi_idx_frac)).
Proof.
  intros Hinc Hn Hm Lf Le Sm.
  destruct (rebin_increasing nan_as_int wave_log10_float wave (Some flux) (Some flux_err)
              mask wave_new Hinc Hn Hm)
    as [wave_edge [wave_new_edge [E1 [E2 [EM ER]]]]];
    try (cbn [shape_ok]; now apply Nat.eqb_eq); try exact Sm.
  destruct (grids_ok wave wave_new Hinc Hn Hm)
    as [we [wne [E1g [E2g [L1 [L2 _]]]]]].
  assert (we = wave_edge) by congruence.
  assert (wne = wave_new_edge) by congruence. subst.
  eexists. eexists. eexists. eexists.
  split; [exact EM|]. split; [exact ER|].
  intros i Hi Hflag.
  assert (Hi' : (i < length wave_new_edge - 1)%nat) by lia.
  destruct (flag_false_positions _ _ _ i Hi' Hflag) as [lo [hi Hpos]].
  exists lo, hi. split; [exact Hpos|].
  assert (Hlen : (i < length (wave_new_edge_pos2
                      (project_edges nan_as_int
                         (Interp1d (removelast wave_edge) (arange (length wave)))
                         wave_new_edge)))%nat)
    by (rewrite length_pos2; lia).
  split.
  - rewrite (nth_map_in _ _ _ (NaN, NaN)) by exact Hlen. now rewrite Hpos.
  - cbn [float_entries]. rewrite (nth_map_in _ _ _ NaN) by (now rewrite length_map).
    rewrite (nth_map_in _ _ _ (NaN, NaN)) by exact Hlen. now rewrite Hpos.
Qed.

Lemma valid_pixel_flux_formula_witness :
  exists M flux_new flux_err2_new rest,
    map_pixels INT64_MIN test_wave test_wave_new = Ok M /\
    rebin INT64_MIN no_np_int test_wave (Some test_flux) (Some test_flux) None
      (Some test_wave_new) = Ok (FloatArr flux_new :: SqrtArr flux_err2_new :: rest) /\
    forall i, (i < length test_wave_new)%nat -> nth i (flags M) true = false ->
      exists lo_idx_frac hi_idx_frac,
        nth i (wave_new_edge_pos2 M) (NaN, NaN) = (Some lo_idx_frac, Some hi_idx_frac) /\
        nth i flux_new NaN = Some (conserved_sum test_flux lo_idx_frac hi_idx_frac) /\
        nth i (float_entries (SqrtArr flux_err2_new)) None
        = np_sqrt (Some (conserved_sum (map (fun e => e * e) test_flux)
                           lo_idx_frac hi_idx_frac)).
Proof.
  apply (valid_pixel_flux_formula INT64_MIN no_np_int test_wave test_flux test_flux None
           test_wave_new);
    vm_compute; try reflexivity; lia.
Defined.

(** C5.  On every flagged new pixel the returned flux and flux error are
    NaN and the returned mask keeps its default [false]; the call returns,
    with one entry for every new pixel in each array. *)
Theorem flagged_pixel_nan (nan_as_int : Z)
    (wave_log10_float : list Q -> result (list Q)) (wave flux flux_err : list Q)
    (mask : list bool) (wave_new : list Q) :
  strictly_increasing wave = true ->
  (2 <= length wave)%nat -> (2 <= length wave_new)%nat ->
  length flux = length wave -> length flux_err = length wave ->
  length mask = length wave ->
  exists M flux_new flux_err2_new mask_new,
    map_pixels nan_as_int wave wave_new = Ok M /\
    rebin nan_as_int wave_log10_float wave (Some flux) (Some flux_err) (Some mask)
      (Some wave_new)
    = Ok [FloatArr flux_new; SqrtArr flux_err2_new; BoolArr mask_new] /\
    length flux_new = length wave_new /\
    length flux_err2_new = length wave_new /\
    length mask_new = length wave_new /\
    forall i, (i < length wave_new)%nat -> nth i (flags M) false = true ->
      nth i flux_new (Some 0) = NaN /\
      nth i (float_entries (SqrtArr flux_err2_new)) (Some 0%R) = None /\
      nth i mask_new true = false.
Proof.
  intros Hinc Hn Hm Lf Le Lm.
  destruct (rebin_increasing nan_as_int wave_log10_float wave (Some flux) (Some flux_err)
              (Some mask) wave_new Hinc Hn Hm)
    as [wave_edge [wave_new_edge [E1 [E2 [EM ER]]]]];
    try (cbn [shape_ok]; now apply Nat.eqb_eq).
  destruct (grids_ok wave wave_new Hinc Hn Hm)
    as [we [wne [E1g [E2g [L1 [L2 _]]]]]].
  assert (we = wave_edge) by congruence.
  assert (wne = wave_new_edge) by congruence. subst.
  eexists. eexists. eexists. eexists.
  split; [exact EM|]. split; [exact ER|].
  rewrite !length_map, length_pos2.
  split; [lia|]. split; [lia|]. split; [lia|].
  intros i Hi Hflag.
  assert (Hi' : (i < length wave_new_edge - 1)%nat) by lia.
  pose proof (flag_true_positions _ _ _ i Hi' Hflag) as Hpos.
  assert (Hlen : (i < length (wave_new_edge_pos2
                      (project_edges nan_as_int
                         (Interp1d (removelast wave_edge) (arange (length wave)))
                         wave_new_edge)))%nat)
    by (rewrite length_pos2; lia).
  cbn [float_entries].
  rewrite (nth_map_in np_sqrt _ _ NaN) by (now rewrite length_map).
  rewrite !(nth_map_in _ _ _ (NaN, NaN)) by exact Hlen.
  destruct (nth i _ (NaN, NaN)) as [[lo|] [hi|]]; try (repeat split; reflexivity).
  exfalso. now apply (Hpos lo hi).
Qed.

Lemma flagged_pixel_nan_witness :
  exists M flux_new flux_err2_new mask_new,
    map_pixels INT64_MIN test_wave test_wave_new = Ok M /\
    rebin INT64_MIN no_np_int test_wave (Some test_flux) (Some test_flux)
      (Some example_mask) (Some test_wave_new)
    = Ok [FloatArr flux_new; SqrtArr flux_err2_new; BoolArr mask_new] /\
    length flux_new = length test_wave_new /\
    length flux_err2_new = length test_wave_new /\
    length mask_new = length test_wave_new /\
    forall i, (i < length test_wave_new)%nat -> nth i (flags M) false = true ->
      nth i flux_new (Some 0) = NaN /\
      nth i (float_entries (SqrtArr flux_err2_new)) (Some 0%R) = None /\
      nth i mask_new true = false.
Proof.
  apply (flagged_pixel_nan INT64_MIN no_np_int test_wave test_flux test_flux example_mask
           test_wave_new);
    vm_compute; try reflexivity; lia.
Defined.

Lemma or_range_true_iff (old : list bool) (lo hi : Z) :
  (0 <= lo)%Z -> (hi < Z.of_nat (length old))%Z ->
  or_range old lo hi = true <->
  exists k, (lo <= k <= hi)%Z /\ nth (Z.to_nat k) old false = true.
Proof.
  intros Hlo Hhi. unfold or_range, np_any.
  set (a := Z.to_nat lo). set (n := (Z.to_nat (hi + 1) - a)%nat).
  rewrite existsb_exists. split.
  - intros [b [Hin ->]].
    destruct (In_nth _ _ false Hin) as [j [Hj Hnth]].
    rewrite nth_firstn, nth_skipn in Hnth.
    destruct (Nat.ltb_spec j n) as [Hjn|]; [|discriminate].
    exists (Z.of_nat (a + j)). split; [subst a n; lia|].
    now rewrite Nat2Z.id.
  - intros [k [Hk Hnth]].
    exists true. split; [|reflexivity].
    assert (Hj : (Z.to_nat k - a < length (firstn n (skipn a old)))%nat).
    { rewrite length_firstn, length_skipn. subst a n. lia. }
    pose proof (nth_In _ false Hj) as Hin.
    rewrite nth_firstn, nth_skipn in Hin.
    destruct (Nat.ltb_spec (Z.to_nat k - a) n) as [_|Hge]; [|subst a n; lia].
    replace (a + (Z.to_nat k - a))%nat with (Z.to_nat k) in Hin by (subst a; lia).
    now rewrite Hnth in Hin.
Qed.

(** C6.  On every unflagged new pixel the returned mask is the logical OR
    of the old mask over the indices [lo_floor .. hi_floor], [hi_floor]
    included: it is true exactly when one of these old pixels is masked. *)
Theorem valid_pixel_mask_or (nan_as_int : Z)
    (wave_log10_float : list Q -> result (list Q)) (wave : list Q)
    (mask : list bool) (wave_new : list Q) :
  strictly_increasing wave = true ->
  (2 <= length wave)%nat -> (2 <= length wave_new)%nat ->
  length mask = length wave ->
  exists M mask_new,
    map_pixels nan_as_int wave wave_new = Ok M /\
    rebin nan_as_int wave_log10_float wave None None (Some mask) (Some wave_new)
    = Ok [BoolArr mask_new] /\
    forall i, (i < length wave_new)%nat -> nth i (flags M) true = false ->
      exists lo_idx_frac hi_idx_frac,
        nth i (wave_new_edge_pos2 M) (NaN, NaN) = (Some lo_idx_frac, Some hi_idx_frac) /\
        nth i mask_new false = or_range mask (Qfloor lo_idx_frac) (Qfloor hi_idx_frac) /\
        (nth i mask_new false = true <->
         exists k, (Qfloor lo_idx_frac <= k <= Qfloor hi_idx_frac)%Z /\
                   nth (Z.to_nat k) mask false = true).
Proof.
  intros Hinc Hn Hm Lm.
  destruct (rebin_increasing nan_as_int wave_log10_float wave None None
              (Some mask) wave_new Hinc Hn Hm)
    as [wave_edge [wave_new_edge [E1 [E2 [EM ER]]]]];
    try (cbn [shape_ok]; now apply Nat.eqb_eq); try reflexivity.
  destruct (grids_ok wave wave_new Hinc Hn Hm)
    as [we [wne [E1g [E2g [L1 [L2 [Xinc [Xlen _]]]]]]]].
  assert (we = wave_edge) by congruence.
  assert (wne = wave_new_edge) by congruence. subst.
  eexists. eexists. split; [exact EM|]. split; [exact ER|].
  intros i Hi Hflag.
  assert (Hi' : (i < length wave_new_edge - 1)%nat) by lia.
  destruct (flag_false_positions _ _ _ i Hi' Hflag) as [lo [hi Hpos]].
  exists lo, hi. split; [exact Hpos|].
  assert (Hlen : (i < length (wave_new_edge_pos2
                      (project_edges nan_as_int
                         (Interp1d (removelast wave_edge) (arange (length wave)))
                         wave_new_edge)))%nat)
    by (rewrite length_pos2; lia).
  assert (Hval : nth i (map (expected_mask mask)
                          (wave_new_edge_pos2
                             (project_edges nan_as_int
                                (Interp1d (removelast wave_edge) (arange (length wave)))
                                wave_new_edge))) false
                 = or_range mask (Qfloor lo) (Qfloor hi)).
  { rewrite (nth_map_in _ _ _ (NaN, NaN)) by exact Hlen. now rewrite Hpos. }
  split; [exact Hval|]. rewrite Hval.
  rewrite nth_pos2 in Hpos by exact Hi'. injection Hpos as Plo Phi.
  destruct (floors_within_increasing (removelast wave_edge) wave_new_edge
              (length wave) Xinc ltac:(lia) ltac:(lia) i lo hi Hi' Plo Phi)
    as [Blo Bhi].
  apply or_range_true_iff; lia.
Qed.

Lemma valid_pixel_mask_or_witness :
  exists M mask_new,
    map_pixels INT64_MIN test_wave test_wave_new = Ok M /\
    rebin INT64_MIN no_np_int test_wave None None (Some example_mask)
      (Some test_wave_new) = Ok [BoolArr mask_new] /\
    forall i, (i < length test_wave_new)%nat -> nth i (flags M) true = false ->
      exists lo_idx_frac hi_idx_frac,
        nth i (wave_new_edge_pos2 M) (NaN, NaN) = (Some lo_idx_frac, Some hi_idx_frac) /\
        nth i mask_new false
        = or_range example_mask (Qfloor lo_idx_frac) (Qfloor hi_idx_frac) /\
        (nth i mask_new false = true <->
         exists k, (Qfloor lo_idx_frac <= k <= Qfloor hi_idx_frac)%Z /\
                   nth (Z.to_nat k) example_mask false = true).
Proof.
  apply (valid_pixel_mask_or INT64_MIN no_np_int test_wave example_mask test_wave_new);
    vm_compute; try reflexivity; lia.
Defined.

(** ** C8: shape validation *)

Ltac rebin_stage :=
  match goal with
  | |- exists e, Raise _ = Raise e => eexists; reflexivity
  | |- exists e, bind (Raise _) _ = Raise e => eexists; reflexivity
  | |- context [for_enumerate ?b ?s ?f ?a] =>
      destruct (for_enumerate b s f a); cbn [bind app]
  | |- context [negb (Nat.eqb ?x ?y)] =>
      destruct (Nat.eqb x y) eqn:?; cbn [negb bind app]
  end.

(** C8.  A call with a flux, flux_err or mask array whose shape differs
    from that of the old grid ends in an exception and returns no list, not
    even a partial one; with well-formed grids the exception is the
    [AssertionError] of the shape check. *)
Theorem shape_mismatch_raises (nan_as_int : Z)
    (wave_log10_float : list Q -> result (list Q))
    (wave : list Q) (flux flux_err : option (list Q)) (mask : option (list bool))
    (wave_new : option (list Q)) :
  shape_ok flux wave && shape_ok flux_err wave && shape_ok mask wave = false ->
  (exists e,
     rebin nan_as_int wave_log10_float wave flux flux_err mask wave_new = Raise e) /\
  (forall w, wave_new = Some w -> strictly_increasing wave = true ->
     (2 <= length wave)%nat -> (2 <= length w)%nat ->
     rebin nan_as_int wave_log10_float wave flux flux_err mask wave_new
     = Raise AssertionError).
Proof.
  intros Hbad. split.
  - unfold rebin.
    destruct (match wave_new with
              | Some w => Ok w
              | None => wave_log10_float wave
              end) as [w|e]; cbn [bind]; [|eexists; reflexivity].
    destruct (map_pixels nan_as_int wave w) as [M|e]; cbn [bind];
      [|eexists; reflexivity].
    destruct flux as [flux|], flux_err as [flux_err|], mask as [mask|];
      cbn [shape_ok andb] in Hbad; rewrite ?length_map; cbn [bind app];
      repeat rebin_stage;
      repeat match goal with
             | H : Nat.eqb _ _ = true |- _ => rewrite H in Hbad
             end;
      cbn [andb] in Hbad; discriminate.
  - intros w -> Hinc Hn Hm.
    destruct (rebin_increasing_shapes nan_as_int wave_log10_float wave flux flux_err mask
                w Hinc Hn Hm)
      as [wave_edge [wave_new_edge [_ [_ [_ ER]]]]].
    now rewrite Hbad in ER.
Qed.

Lemma shape_mismatch_raises_witness :
  (exists e,
     rebin INT64_MIN no_np_int test_wave (Some test_flux) (Some [1; 1; 1]) None
       (Some test_wave_new) = Raise e) /\
  (forall w, Some test_wave_new = Some w -> strictly_increasing test_wave = true ->
     (2 <= length test_wave)%nat -> (2 <= length w)%nat ->
     rebin INT64_MIN no_np_int test_wave (Some test_flux) (Some [1; 1; 1]) None
       (Some test_wave_new) = Raise AssertionError).
Proof.
  apply (shape_mismatch_raises INT64_MIN no_np_int test_wave (Some test_flux)
           (Some [1; 1; 1]) None (Some test_wave_new)).
  vm_compute. reflexivity.
Defined.

(** ** C2: rebinning onto the old grid *)

Lemma firstn_1_skipn {A : Type} (l : list A) (i : nat) (d : A) :
  (i < length l)%nat -> firstn 1 (skipn i l) = [nth i l d].
Proof.
  revert i. induction l as [|a l IH]; intros i Hi; cbn [length] in Hi; [lia|].
  destruct i as [|i]; [reflexivity|].
  cbn [skipn nth]. apply IH. lia.
Qed.

(** A new pixel that coincides with old pixel [i] receives its flux. *)
Lemma conserved_sum_same_pixel (old : list Q) (lo hi : Q) (i : nat) :
  (i < length old)%nat ->
  lo == inject_Z (Z.of_nat i) -> hi == inject_Z (Z.of_nat (S i)) ->
  conserved_sum old lo hi == nth i old 0.
Proof.
  intros Hi Hlo Hhi. unfold conserved_sum, sum_range.
  rewrite (Qfloor_comp _ _ Hlo), (Qfloor_comp _ _ Hhi), !Qfloor_Z, !Nat2Z.id.
  replace (S i - i)%nat with 1%nat by lia.
  rewrite (firstn_1_skipn old i 0 Hi).
  unfold np_sum. cbn [fold_left]. rewrite Hlo, Hhi. ring.
Qed.

(** C2, as the code has it.  Rebinning onto the old grid itself returns the
    old flux on every pixel but the last, and NaN on the last pixel, whose
    upper edge is the outermost old edge. *)
Theorem rebin_same_grid (nan_as_int : Z)
    (wave_log10_float : list Q -> result (list Q)) (wave flux : list Q) :
  strictly_increasing wave = true ->
  (2 <= length wave)%nat -> length flux = length wave ->
  exists flux_new,
    rebin nan_as_int wave_log10_float wave (Some flux) None None (Some wave)
    = Ok [FloatArr flux_new] /\
    length flux_new = length wave /\
    (forall i, (i < length wave - 1)%nat ->
       fl_eq (nth i flux_new NaN) (Some (nth i flux 0))) /\
    nth (length wave - 1) flux_new (Some 0) = NaN.
Proof.
  intros Hinc Hn Lf.
  destruct (rebin_increasing nan_as_int wave_log10_float wave (Some flux) None None
              wave Hinc Hn Hn)
    as [wave_edge [wave_new_edge [E1 [E2 [_ ER]]]]];
    try reflexivity; try (cbn [shape_ok]; now apply Nat.eqb_eq).
  assert (wave_new_edge = wave_edge) by congruence. subst wave_new_edge.
  destruct (edge_index_facts wave wave Hinc Hn Hn)
    as [we [E1' [L1 [Hnode Hlast]]]].
  assert (we = wave_edge) by congruence. subst we.
  eexists. split; [exact ER|].
  set (I := Interp1d (removelast wave_edge) (arange (length wave))) in *.
  assert (Lp : length (wave_new_edge_pos2 (project_edges nan_as_int I wave_edge))
               = length wave) by (rewrite length_pos2; lia).
  split; [now rewrite length_map|]. split.
  - intros i Hi.
    rewrite (nth_map_in _ _ _ (NaN, NaN)) by lia.
    rewrite nth_pos2 by lia.
    destruct (Hnode i ltac:(lia)) as [lo [Plo Elo]].
    destruct (Hnode (S i) ltac:(lia)) as [hi [Phi Ehi]].
    rewrite Plo, Phi. cbn [expected_value fl_eq].
    apply conserved_sum_same_pixel; [lia | exact Elo | exact Ehi].
  - rewrite (nth_map_in _ _ _ (NaN, NaN)) by lia.
    rewrite nth_pos2 by lia.
    replace (S (length wave - 1)) with (length wave) by lia.
    rewrite Hlast.
    destruct (interp1d_call I (nth (length wave - 1) wave_edge 0)); reflexivity.
Qed.

Lemma rebin_same_grid_witness :
  exists flux_new,
    rebin INT64_MIN no_np_int test_wave (Some test_flux) None None (Some test_wave)
    = Ok [FloatArr flux_new] /\
    length flux_new = length test_wave /\
    (forall i, (i < length test_wave - 1)%nat ->
       fl_eq (nth i flux_new NaN) (Some (nth i test_flux 0))) /\
    nth (length test_wave - 1) flux_new (Some 0) = NaN.
Proof.
  apply (rebin_same_grid INT64_MIN no_np_int test_wave test_flux);
    vm_compute; try reflexivity; lia.
Defined.

(** C2 as stated fails: on the grid [0..9] with unit fluxes the array
    returned for [newWave = wave] is within no tolerance of the old flux,
    its last entry being NaN. *)
Lemma rebin_same_grid_last_nan :
  ~ exists tol flux_new,
      rebin INT64_MIN no_np_int test_wave (Some test_flux) None None (Some test_wave)
      = Ok [FloatArr flux_new] /\
      Forall2 (close_to tol) flux_new test_flux.
Proof.
  intros [tol [flux_new [Hr Hall]]].
  vm_compute in Hr. injection Hr as <-.
  unfold test_flux in Hall. cbn [repeat] in Hall.
  repeat match goal with
         | H : Forall2 _ (_ :: _) _ |- _ => inversion H; subst; clear H
         end.
  match goal with H : close_to _ None _ |- _ => exact H end.
Qed.

(** ** C7: what is conserved *)

Lemma edges_from_increasing (h a : Q) (t : list Q) (d : Q) :
  h <= a -> 0 < d -> strictly_increasing (a :: t) = true ->
  strictly_increasing (h :: edges_from a t d) = true.
Proof.
  revert h a d. induction t as [|b t IH]; intros h a d Hh Hd H.
  - cbn [edges_from]. apply strictly_increasing_cons. split; [lra | reflexivity].
  - apply strictly_increasing_cons in H. destruct H as [Hab Ht].
    cbn [edges_from]. apply strictly_increasing_cons. split; [lra|].
    apply IH; [lra | lra | exact Ht].
Qed.

Lemma center2edge_increasing (x edge : list Q) :
  strictly_increasing x = true -> center2edge x = Ok edge ->
  strictly_increasing edge = true.
Proof.
  intros Hx He. destruct x as [|a [|b t]]; try discriminate.
  rewrite center2edge_cons2 in He. injection He as <-.
  assert (Hab : a < b) by (now apply strictly_increasing_cons in Hx).
  apply (edges_from_increasing _ a (b :: t) (b - a)); [lra | lra | exact Hx].
Qed.

Lemma interp_some_inv (x : list Q) (v p : Q) :
  strictly_increasing x = true -> (2 <= length x)%nat ->
  interp1d_call (Interp1d x (arange (length x))) v = Some p ->
  nth 0 x 0 <= v /\ v <= nth (length x - 1) x 0 /\
  p = call_linear (Interp1d x (arange (length x))) v.
Proof.
  intros Hx Hn Hp.
  assert (Hnot : interp1d_call (Interp1d x (arange (length x))) v <> NaN)
    by (rewrite Hp; discriminate).
  assert (Hlo : nth 0 x 0 <= v).
  { apply Qnot_lt_le. intros H. apply Hnot. apply interp_nan_iff; auto. }
  assert (Hhi : v <= nth (length x - 1) x 0).
  { apply Qnot_lt_le. intros H. apply Hnot. apply interp_nan_iff; auto. }
  rewrite (interp_some x Hx Hn v Hlo Hhi) in Hp. injection Hp as <-. auto.
Qed.

Lemma np_sum_from (l : list Q) (a : Q) : fold_left Qplus l a == a + np_sum l.
Proof.
  unfold np_sum. revert a. induction l as [|b l IH]; intros a; cbn [fold_left].
  - ring.
  - rewrite (IH (a + b)), (IH (0 + b)). ring.
Qed.

Lemma np_sum_cons (a : Q) (l : list Q) : np_sum (a :: l) == a + np_sum l.
Proof. unfold np_sum at 1. cbn [fold_left]. rewrite np_sum_from. ring. Qed.

Lemma np_sum_repeat_1 (k : nat) : np_sum (repeat 1 k) == inject_Z (Z.of_nat k).
Proof.
  induction k as [|k IH]; [reflexivity|].
  cbn [repeat]. rewrite np_sum_cons, IH.
  replace (Z.of_nat (S k)) with (1 + Z.of_nat k)%Z by lia.
  now rewrite inject_Z_plus.
Qed.

Lemma firstn_skipn_repeat {A : Type} (c : A) (a k n : nat) :
  (a + k <= n)%nat -> firstn k (skipn a (repeat c n)) = repeat c k.
Proof.
  intros H. apply (nth_ext _ _ c c).
  - rewrite length_firstn, length_skipn, !repeat_length. lia.
  - intros i Hi. rewrite length_firstn, length_skipn, repeat_length in Hi.
    rewrite nth_firstn, nth_skipn, !nth_repeat.
    now destruct (i <? k)%nat.
Qed.

(** On unit fluxes the formula gives the extent of the new pixel on the old
    pixel axis. *)
Lemma conserved_sum_ones (n : nat) (lo hi : Q) :
  (0 <= Qfloor lo)%Z -> (Qfloor lo <= Qfloor hi)%Z -> (Qfloor hi < Z.of_nat n)%Z ->
  conserved_sum (repeat 1 n) lo hi == hi - lo.
Proof.
  intros H0 Hle Hn. unfold conserved_sum, sum_range.
  rewrite firstn_skipn_repeat by lia.
  rewrite np_sum_repeat_1.
  rewrite !(nth_repeat_lt 1 0) by lia.
  replace (Z.of_nat (Z.to_nat (Qfloor hi) - Z.to_nat (Qfloor lo)))
    with (Qfloor hi - Qfloor lo)%Z by lia.
  unfold Zminus. rewrite inject_Z_plus, inject_Z_opp. ring.
Qed.

Lemma telescope (vs qs : list Q) :
  length qs = S (length vs) ->
  (forall i, (i < length vs)%nat -> nth i vs 0 == nth (S i) qs 0 - nth i qs 0) ->
  np_sum vs == nth (length vs) qs 0 - nth 0 qs 0.
Proof.
  revert qs. induction vs as [|v vs IH]; intros qs Hlen Hstep.
  - cbn. ring.
  - destruct qs as [|q0 qs]; [discriminate|].
    cbn [length] in Hlen. injection Hlen as Hlen.
    rewrite np_sum_cons.
    rewrite (IH qs Hlen).
    + pose proof (Hstep O ltac:(cbn; lia)) as H0. cbn [nth] in H0.
      cbn [length nth]. rewrite H0. ring.
    + intros i Hi. pose proof (Hstep (S i) ltac:(cbn; lia)) as Hs.
      cbn [nth] in Hs. exact Hs.
Qed.

(** C7, as the code has it.  For unit fluxes, increasing grids and no
    flagged pixel, the value of each new pixel is its extent on the old
    pixel axis, [hi_idx_frac - lo_idx_frac] (the number of old pixels it
    spans), and the values sum, unweighted, to the extent of the whole new
    grid on that axis. *)
Theorem unit_flux_counts_old_pixels (nan_as_int : Z)
    (wave_log10_float : list Q -> result (list Q)) (wave wave_new : list Q)
    (M : pixel_map) :
  strictly_increasing wave = true -> strictly_increasing wave_new = true ->
  (2 <= length wave)%nat -> (2 <= length wave_new)%nat ->
  map_pixels nan_as_int wave wave_new = Ok M ->
  forallb negb (flags M) = true ->
  exists flux_new p_first p_last,
    rebin nan_as_int wave_log10_float wave (Some (repeat 1 (length wave))) None None
      (Some wave_new) = Ok [FloatArr (map Some flux_new)] /\
    length flux_new = length wave_new /\
    (forall i lo_idx_frac hi_idx_frac, (i < length wave_new)%nat ->
       nth i (wave_new_edge_pos2 M) (NaN, NaN) = (Some lo_idx_frac, Some hi_idx_frac) ->
       nth i flux_new 0 == hi_idx_frac - lo_idx_frac) /\
    fst (nth 0 (wave_new_edge_pos2 M) (NaN, NaN)) = Some p_first /\
    snd (nth (length wave_new - 1) (wave_new_edge_pos2 M) (NaN, NaN)) = Some p_last /\
    np_sum flux_new == p_last - p_first.
Proof.
  intros Hinc Hinc' Hn Hm HM Hflags.
  destruct (rebin_increasing nan_as_int wave_log10_float wave
              (Some (repeat 1 (length wave))) None None wave_new Hinc Hn Hm)
    as [wave_edge [E [E1 [E2 [EM ER]]]]];
    try reflexivity; try (cbn [shape_ok]; rewrite repeat_length; apply Nat.eqb_refl).
  destruct (grids_ok wave wave_new Hinc Hn Hm)
    as [we [wne [E1g [E2g [L1 [L2 [Xinc [Xlen _]]]]]]]].
  assert (we = wave_edge) by congruence.
  assert (wne = E) by congruence. subst we wne.
  rewrite HM in EM. injection EM as ->.
  pose proof (center2edge_increasing wave_new E Hinc' E2) as Einc.
  set (x := removelast wave_edge) in *.
  rewrite <- Xlen in ER, Hflags |- *.
  set (I := Interp1d x (arange (length x))) in *.
  set (ones := repeat 1 (length x)) in *.
  assert (Hx2 : (2 <= length x)%nat) by lia.
  (* every pixel has two numeric edge positions *)
  assert (Hvalid : forall i, (i < length wave_new)%nat ->
             exists lo hi,
               interp1d_call I (nth i E 0) = Some lo /\
               interp1d_call I (nth (S i) E 0) = Some hi).
  { intros i Hi.
    assert (Hi' : (i < length E - 1)%nat) by lia.
    assert (Hf : nth i (flags (project_edges nan_as_int I E)) true = false).
    { rewrite forallb_forall in Hflags.
      apply negb_true_iff, Hflags, nth_In. rewrite length_flags. exact Hi'. }
    rewrite nth_flags in Hf by exact Hi'.
    destruct (interp1d_call I (nth i E 0)) as [lo|]; [|discriminate].
    destruct (interp1d_call I (nth (S i) E 0)) as [hi|]; [|discriminate].
    now exists lo, hi. }
  (* the value of a pixel *)
  assert (Hpix : forall i lo hi, (i < length wave_new)%nat ->
             interp1d_call I (nth i E 0) = Some lo ->
             interp1d_call I (nth (S i) E 0) = Some hi ->
             conserved_sum ones lo hi == hi - lo).
  { intros i lo hi Hi Plo Phi.
    pose proof (floor_in_range x _ _ Xinc Hx2 Plo) as Flo.
    pose proof (floor_in_range x _ _ Xinc Hx2 Phi) as Fhi.
    destruct (interp_some_inv x _ _ Xinc Hx2 Plo) as [A1 [A2 Elo]].
    destruct (interp_some_inv x _ _ Xinc Hx2 Phi) as [B1 [B2 Ehi]].
    assert (Hlt : nth i E 0 < nth (S i) E 0)
      by (apply strictly_increasing_nth; [exact Einc | lia | lia]).
    pose proof (call_linear_mono x Xinc Hx2 _ _ A1 (Qlt_le_weak _ _ Hlt) B2) as Hmono.
    rewrite <- Elo, <- Ehi in Hmono.
    apply Qfloor_resp_le in Hmono.
    apply conserved_sum_ones; lia. }
  set (value := fun p : fl * fl =>
                  match p with
                  | (Some lo, Some hi) => conserved_sum ones lo hi
                  | _ => 0
                  end).
  set (pos := fun e => match interp1d_call I e with Some p => p | None => 0 end).
  set (pos2 := wave_new_edge_pos2 (project_edges nan_as_int I E)) in *.
  assert (Lp : length pos2 = length wave_new) by (subst pos2; rewrite length_pos2; lia).
  assert (Hnth : forall i, (i < length wave_new)%nat ->
             nth i pos2 (NaN, NaN)
             = (interp1d_call I (nth i E 0), interp1d_call I (nth (S i) E 0))).
  { intros i Hi. subst pos2. apply nth_pos2. lia. }
  destruct (Hvalid O ltac:(lia)) as [p_first [_q [Pf _]]].
  destruct (Hvalid (length wave_new - 1)%nat ltac:(lia)) as [_q' [p_last [_ Pl]]].
  exists (map value pos2), p_first, p_last.
  split.
  { rewrite ER. unfold expected_result. cbn [app]. rewrite map_map.
    do 3 f_equal. symmetry.
    apply map_ext_in. intros p Hp.
    destruct (In_nth _ _ (NaN, NaN) Hp) as [i [Hi <-]].
    rewrite Hnth by lia.
    destruct (Hvalid i ltac:(lia)) as [lo [hi [-> ->]]]. reflexivity. }
  split; [now rewrite length_map|].
  split.
  { intros i lo hi Hi Hpos.
    rewrite (nth_map_in _ _ _ (NaN, NaN)) by lia. rewrite Hpos. cbn [value].
    rewrite Hnth in Hpos by exact Hi. injection Hpos as Plo Phi.
    now apply (Hpix i). }
  split; [rewrite Hnth by lia; now rewrite Pf|].
  split; [rewrite Hnth by lia; now rewrite Pl|].
  rewrite (telescope (map value pos2) (map pos E)).
  - rewrite length_map, Lp.
    rewrite !(nth_map_in pos _ _ 0) by lia.
    unfold pos. replace (length wave_new) with (S (length wave_new - 1)) at 1 by lia.
    rewrite Pl, Pf. reflexivity.
  - rewrite !length_map. lia.
  - intros i Hi. rewrite length_map, Lp in Hi.
    rewrite (nth_map_in value _ _ (NaN, NaN)) by lia.
    rewrite !(nth_map_in pos _ _ 0) by lia.
    rewrite Hnth by exact Hi. unfold pos.
    destruct (Hvalid i Hi) as [lo [hi [Plo Phi]]]. rewrite Plo, Phi. cbn [value].
    now apply (Hpix i).
Qed.

Lemma unit_flux_counts_old_pixels_witness :
  exists M,
    map_pixels INT64_MIN test_wave inner_wave_new = Ok M /\
    forallb negb (flags M) = true /\
    exists flux_new p_first p_last,
      rebin INT64_MIN no_np_int test_wave (Some (repeat 1 (length test_wave))) None None
        (Some inner_wave_new) = Ok [FloatArr (map Some flux_new)] /\
      length flux_new = length inner_wave_new /\
      (forall i lo_idx_frac hi_idx_frac, (i < length inner_wave_new)%nat ->
         nth i (wave_new_edge_pos2 M) (NaN, NaN) = (Some lo_idx_frac, Some hi_idx_frac) ->
         nth i flux_new 0 == hi_idx_frac - lo_idx_frac) /\
      fst (nth 0 (wave_new_edge_pos2 M) (NaN, NaN)) = Some p_first /\
      snd (nth (length inner_wave_new - 1) (wave_new_edge_pos2 M) (NaN, NaN))
      = Some p_last /\
      np_sum flux_new == p_last - p_first.
Proof.
  eexists. split; [vm_compute; reflexivity|]. split; [vm_compute; reflexivity|].
  apply (unit_flux_counts_old_pixels INT64_MIN no_np_int test_wave inner_wave_new);
    vm_compute; try reflexivity; lia.
Defined.

(** C7 as stated fails: on [wave = [0..9]] with unit fluxes and the inner
    grid [0.5, 2.5, 4.5, 6.5] no pixel is flagged, every new pixel gets the
    value 2 rather than 1, and the values weighted by the new pixel widths
    sum to 16 while the new grid is 8 wide. *)
Lemma unit_flux_not_width_weighted :
  (exists M,
     map_pixels INT64_MIN test_wave inner_wave_new = Ok M /\
     forallb negb (flags M) = true) /\
  ~ exists flux_new wave_new_edge,
      rebin INT64_MIN no_np_int test_wave (Some test_flux) None None
        (Some inner_wave_new) = Ok [FloatArr flux_new] /\
      center2edge inner_wave_new = Ok wave_new_edge /\
      close_to 1 (width_weighted_sum flux_new wave_new_edge) (total_width wave_new_edge).
Proof.
  split.
  - eexists. split; vm_compute; reflexivity.
  - intros [flux_new [wave_new_edge [Hr [He Hc]]]].
    vm_compute in Hr. injection Hr as <-.
    vm_compute in He. injection He as <-.
    vm_compute in Hc. apply Hc. reflexivity.
Qed.

(** ** C9: the default grid *)

Lemma py_int_floor (q : Q) : 0 <= q -> py_int q = Qfloor q.
Proof.
  destruct q as [n d]. unfold Qle, py_int, Qfloor. cbn [Qnum Qden].
  intros H. apply Z.quot_div_nonneg; lia.
Qed.

Lemma ln_10_pos : (0 < ln 10)%R.
Proof. rewrite <- ln_1. apply ln_increasing; lra. Qed.

Lemma Rpower_10_log10 (x : R) : (0 < x)%R -> Rpower 10 (log10 x) = x.
Proof.
  intros Hx. unfold Rpower, log10.
  replace (ln x / ln 10 * ln 10)%R with (ln x)
    by (field; apply Rgt_not_eq, ln_10_pos).
  now apply exp_ln.
Qed.

Lemma length_linspace (start stop : R) (num : Z) (y : list R) :
  linspace start stop num = Ok y -> Z.of_nat (length y) = num.
Proof.
  unfold linspace. destruct (Z.ltb_spec num 0) as [|Hnum]; [discriminate|].
  intros H. injection H as <-.
  destruct (1 <? num)%Z; rewrite ?length_setitem;
    destruct (0 <? num - 1)%Z; rewrite !length_map, length_seq; lia.
Qed.

(** The entries of [np.linspace] for at least two samples. *)
Lemma nth_linspace (start stop : R) (num : Z) (k : nat) :
  (2 <= num)%Z -> (Z.of_nat k < num)%Z ->
  exists y, linspace start stop num = Ok y /\
    nth k y 0%R = (start + IZR (Z.of_nat k) * ((stop - start) / IZR (num - 1)))%R.
Proof.
  intros Hnum Hk. unfold linspace.
  destruct (Z.ltb_spec num 0) as [|_]; [lia|].
  destruct (Z.ltb_spec 1 num) as [_|]; [|lia].
  destruct (Z.ltb_spec 0 (num - 1)) as [_|]; [|lia].
  eexists. split; [reflexivity|].
  set (step := ((stop - start) / IZR (num - 1))%R).
  assert (Hlen : length (map (fun v => (v + start)%R)
                           (map (fun v => (v * step)%R)
                              (map (fun k => IZR (Z.of_nat k)) (seq 0 (Z.to_nat num)))))
                 = Z.to_nat num) by (now rewrite !length_map, length_seq).
  rewrite nth_setitem by (rewrite Hlen; lia).
  destruct (Nat.eqb_spec k (Z.to_nat num - 1)) as [->|Hne].
  - replace (Z.of_nat (Z.to_nat num - 1)) with (num - 1)%Z by lia.
    subst step. field. apply not_0_IZR. lia.
  - rewrite (nth_map_in _ _ _ 0%R) by (rewrite !length_map, length_seq; lia).
    rewrite (nth_map_in _ _ _ 0%R) by (rewrite !length_map, length_seq; lia).
    rewrite (nth_map_in _ _ _ O) by (rewrite length_seq; lia).
    rewrite seq_nth by lia. cbn [Nat.add]. ring.
Qed.

Lemma hd_error_nth {A : Type} (l : list A) (d : A) :
  l <> [] -> hd_error l = Some (nth 0 l d).
Proof. destruct l; [congruence | reflexivity]. Qed.

(** The median of the consecutive differences never exceeds the range. *)

Lemma fold_min_le (t : list Q) (a : Q) :
  fold_left Qmin t a <= a /\ forall v, In v t -> fold_left Qmin t a <= v.
Proof.
  revert a. induction t as [|b t IH]; intros a; cbn [fold_left].
  - split; [apply Qle_refl | intros v []].
  - destruct (IH (Qmin a b)) as [H1 H2]. split.
    + eapply Qle_trans; [exact H1 | apply Q.le_min_l].
    + intros v [<-|Hv]; [|now apply H2].
      eapply Qle_trans; [exact H1 | apply Q.le_min_r].
Qed.

Lemma fold_max_ge (t : list Q) (a : Q) :
  a <= fold_left Qmax t a /\ forall v, In v t -> v <= fold_left Qmax t a.
Proof.
  revert a. induction t as [|b t IH]; intros a; cbn [fold_left].
  - split; [apply Qle_refl | intros v []].
  - destruct (IH (Qmax a b)) as [H1 H2]. split.
    + eapply Qle_trans; [apply Q.le_max_l | exact H1].
    + intros v [<-|Hv]; [|now apply H2].
      eapply Qle_trans; [apply Q.le_max_r | exact H1].
Qed.

Lemma np_min_le (l : list Q) (lo v : Q) : np_min l = Ok lo -> In v l -> lo <= v.
Proof.
  destruct l as [|a t]; [discriminate|]. intros H Hv. injection H as <-.
  destruct (fold_min_le t a) as [H1 H2]. destruct Hv as [<-|Hv]; auto.
Qed.

Lemma np_max_ge (l : list Q) (hi v : Q) : np_max l = Ok hi -> In v l -> v <= hi.
Proof.
  destruct l as [|a t]; [discriminate|]. intros H Hv. injection H as <-.
  destruct (fold_max_ge t a) as [H1 H2]. destruct Hv as [<-|Hv]; auto.
Qed.

Lemma In_diff (x : list Q) (d : Q) :
  In d (diff x) -> exists a b, In a x /\ In b x /\ d = b - a.
Proof.
  induction x as [|a t IH]; [intros []|].
  destruct t as [|b t]; [intros []|].
  change (diff (a :: b :: t)) with ((b - a) :: diff (b :: t)).
  intros [<-|Hd].
  - exists a, b. repeat split; cbn; auto.
  - destruct (IH Hd) as [a' [b' [Ha [Hb ->]]]].
    exists a', b'. repeat split; now right.
Qed.

Lemma In_insert_sorted (a v : Q) (l : list Q) :
  In v (insert_sorted a l) -> v = a \/ In v l.
Proof.
  induction l as [|b l IH]; cbn [insert_sorted].
  - intros [<-|[]]. now left.
  - destruct (Qle_bool a b).
    + intros [<-|H]; [now left | now right].
    + intros [<-|H]; [right; now left|].
      destruct (IH H) as [->|Hl]; [now left | right; now right].
Qed.

Lemma In_np_sort (v : Q) (l : list Q) : In v (np_sort l) -> In v l.
Proof.
  induction l as [|a l IH]; cbn [np_sort]; [auto|].
  intros H. destruct (In_insert_sorted _ _ _ H) as [->|Hl]; [now left|].
  right. now apply IH.
Qed.

Lemma np_median_le (l : list Q) (m bound : Q) :
  (forall v, In v l -> v <= bound) -> np_median l = Some m -> m <= bound.
Proof.
  intros Hb. unfold np_median.
  set (s := np_sort l).
  assert (Hs : forall k, (k < length s)%nat -> nth k s 0 <= bound).
  { intros k Hk. apply Hb, In_np_sort. now apply nth_In. }
  destruct (Nat.eqb_spec (length s) 0) as [|Hn]; [discriminate|].
  assert (Hhalf : (length s / 2 < length s)%nat)
    by (apply Nat.Div0.div_lt_upper_bound; lia).
  destruct (Nat.odd (length s)); intros H.
  - assert (m = nth (length s / 2) s 0) as -> by congruence.
    apply Hs. exact Hhalf.
  - assert (m = (nth (length s / 2 - 1) s 0 + nth (length s / 2) s 0) / 2) as ->
      by congruence.
    pose proof (Hs (length s / 2 - 1)%nat ltac:(lia)).
    pose proof (Hs (length s / 2)%nat Hhalf).
    apply Qle_shift_div_r; lra.
Qed.

Lemma mdwave_le_ptp (wave : list Q) (d lo hi : Q) :
  np_min wave = Ok lo -> np_max wave = Ok hi -> mdwave wave = Some d ->
  d <= hi - lo.
Proof.
  intros Hmin Hmax. apply np_median_le.
  intros v Hv. destruct (In_diff _ _ Hv) as [a [b [Ha [Hb ->]]]].
  pose proof (np_min_le _ _ _ Hmin Ha). pose proof (np_max_ge _ _ _ Hmax Hb). lra.
Qed.

(** C9, as the code has it.  With [min(wave) > 0] and a positive spacing,
    either the default (the median of the consecutive differences) or a
    supplied one that is not larger than [max(wave) - min(wave)],
    [wave_log10] returns [floor((max - min) / spacing) + 1] samples, uniform
    in log10, from [min(wave)] to [max(wave)]. *)
Theorem log_grid_endpoints (wave : list Q) (dwave : option Q) (spacing lo hi : Q) :
  np_min wave = Ok lo -> np_max wave = Ok hi ->
  match dwave with Some d => Some d | None => mdwave wave end = Some spacing ->
  0 < lo -> 0 < spacing -> (dwave = None \/ spacing <= hi - lo) ->
  exists g,
    wave_log10 wave dwave = Ok (LogGrid g) /\
    Z.of_nat (length g) = (Qfloor ((hi - lo) / spacing) + 1)%Z /\
    hd_error g = Some (Q2R lo) /\
    last g 0%R = Q2R hi /\
    forall k, (k < length g)%nat ->
      nth k g 0%R
      = Rpower 10 (log10 (Q2R lo)
                   + IZR (Z.of_nat k)
                     * ((log10 (Q2R hi) - log10 (Q2R lo))
                        / IZR (Qfloor ((hi - lo) / spacing))))%R.
Proof.
  intros Hmin Hmax Hd Hlo Hsp Hcase.
  assert (Hle : spacing <= hi - lo).
  { destruct Hcase as [->|H]; [|exact H]. now apply (mdwave_le_ptp wave). }
  assert (Hq : 1 <= (hi - lo) / spacing) by (apply Qle_shift_div_l; lra).
  assert (Hfl : (1 <= Qfloor ((hi - lo) / spacing))%Z).
  { apply Qfloor_resp_le in Hq. exact Hq. }
  set (npix := (Qfloor ((hi - lo) / spacing) + 1)%Z).
  assert (Hnpix : npix_of (hi - lo) (Some spacing) = Ok npix).
  { unfold npix_of.
    destruct (Qeq_bool spacing 0) eqn:E0.
    - apply Qeq_bool_eq in E0. lra.
    - rewrite py_int_floor by lra. reflexivity. }
  assert (Hpos_lo : (0 < Q2R lo)%R).
  { rewrite <- RMicromega.Q2R_0. now apply Qlt_Rlt. }
  assert (Hpos_hi : (0 < Q2R hi)%R).
  { rewrite <- RMicromega.Q2R_0. apply Qlt_Rlt. lra. }
  destruct (nth_linspace (log10 (Q2R lo)) (log10 (Q2R hi)) npix 0
              ltac:(subst npix; lia) ltac:(subst npix; lia))
    as [y [Hy _]].
  pose proof (length_linspace _ _ _ _ Hy) as Ly.
  assert (Hnth : forall k, (k < length y)%nat ->
            nth k y 0%R
            = (log10 (Q2R lo)
               + IZR (Z.of_nat k)
                 * ((log10 (Q2R hi) - log10 (Q2R lo)) / IZR (npix - 1)))%R).
  { intros k Hk.
    destruct (nth_linspace (log10 (Q2R lo)) (log10 (Q2R hi)) npix k
                ltac:(subst npix; lia) ltac:(lia))
      as [y' [Hy' Hk']].
    rewrite Hy in Hy'. injection Hy' as <-. exact Hk'. }
  replace (npix - 1)%Z with (Qfloor ((hi - lo) / spacing)) in Hnth by (subst npix; lia).
  exists (map (Rpower 10) y).
  split.
  { unfold wave_log10. rewrite Hd. unfold np_ptp. rewrite Hmax, Hmin. cbn [bind].
    rewrite Hnpix. cbn [bind].
    destruct (Z.ltb_spec npix 0) as [|_]; [subst npix; lia|].
    destruct (Z.eqb_spec npix 0) as [|_]; [subst npix; lia|].
    destruct (Qle_bool lo 0) eqn:El; [apply Qle_bool_iff in El; lra|].
    unfold logspace. rewrite Hy. reflexivity. }
  split; [rewrite length_map; exact Ly|].
  assert (Hne : map (Rpower 10) y <> []).
  { intros H. apply (f_equal (@length R)) in H. rewrite length_map in H.
    cbn [length] in H. subst npix. lia. }
  split.
  { rewrite (hd_error_nth _ 0%R Hne).
    rewrite (nth_map_in _ _ _ 0%R) by lia.
    rewrite Hnth by lia. cbn [Z.of_nat].
    rewrite Rmult_0_l, Rplus_0_r. now rewrite Rpower_10_log10. }
  split.
  { rewrite last_is_nth, length_map.
    rewrite (nth_map_in _ _ _ 0%R) by lia.
    rewrite Hnth by lia.
    replace (Z.of_nat (length y - 1)) with (Qfloor ((hi - lo) / spacing))
      by (subst npix; lia).
    replace (log10 (Q2R lo)
             + IZR (Qfloor ((hi - lo) / spacing))
               * ((log10 (Q2R hi) - log10 (Q2R lo)) / IZR (Qfloor ((hi - lo) / spacing))))%R
      with (log10 (Q2R hi)) by (field; apply not_0_IZR; lia).
    now rewrite Rpower_10_log10. }
  intros k Hk. rewrite length_map in Hk.
  rewrite (nth_map_in _ _ _ 0%R) by lia. now rewrite Hnth by lia.
Qed.

Lemma log_grid_endpoints_witness :
  exists g,
    wave_log10 example_wave None = Ok (LogGrid g) /\
    Z.of_nat (length g) = (Qfloor ((8 - 1) / 2) + 1)%Z /\
    hd_error g = Some (Q2R 1) /\
    last g 0%R = Q2R 8 /\
    forall k, (k < length g)%nat ->
      nth k g 0%R
      = Rpower 10 (log10 (Q2R 1)
                   + IZR (Z.of_nat k)
                     * ((log10 (Q2R 8) - log10 (Q2R 1))
                        / IZR (Qfloor ((8 - 1) / 2))))%R.
Proof.
  apply (log_grid_endpoints example_wave None 2 1 8);
    try (left; reflexivity); vm_compute; reflexivity.
Defined.

(** C9 as stated fails: for [wave = [1, 2]] and the positive spacing 3 the
    grid has the single sample [min(wave)], so its last element is not
    [max(wave)]; and for a grid that starts at 0, such as [0, 1], the
    result has entries that are not finite numbers. *)
Lemma log_grid_single_sample :
  (exists g,
     wave_log10 [1; 2] (Some 3) = Ok (LogGrid g) /\
     np_max [1; 2] = Ok 2 /\
     length g = 1%nat /\
     last g 0%R <> Q2R 2) /\
  wave_log10 [0; 1] None = Ok NonFinite.
Proof.
  split.
  - exists [Rpower 10 (IZR 0 * (log10 (Q2R 2) - log10 (Q2R 1)) + log10 (Q2R 1))%R].
    split; [|split; [|split]].
    + unfold wave_log10.
      change (np_ptp [1; 2]) with (Ok (A := Q) (Qmax 1 2 - Qmin 1 2)).
      cbn [bind].
      change (npix_of (Qmax 1 2 - Qmin 1 2) (Some 3)) with (Ok (A := Z) 1%Z).
      cbn [bind].
      change (np_min [1; 2]) with (Ok (A := Q) 1).
      change (np_max [1; 2]) with (Ok (A := Q) 2).
      cbn [bind]. reflexivity.
    + reflexivity.
    + reflexivity.
    + cbn [last].
      replace (IZR 0 * (log10 (Q2R 2) - log10 (Q2R 1)) + log10 (Q2R 1))%R
        with (log10 (Q2R 1)) by ring.
      rewrite Rpower_10_log10 by (unfold Q2R; cbn; lra).
      unfold Q2R; cbn; lra.
  - unfold wave_log10.
    change (mdwave [0; 1]) with (Some (1 - 0)).
    change (np_ptp [0; 1]) with (Ok (A := Q) (Qmax 0 1 - Qmin 0 1)).
    cbn [bind].
    change (npix_of (Qmax 0 1 - Qmin 0 1) (Some (1 - 0))) with (Ok (A := Z) 2%Z).
    cbn [bind].
    change (np_min [0; 1]) with (Ok (A := Q) 0).
    change (np_max [0; 1]) with (Ok (A := Q) 1).
    reflexivity.
Qed.

(** * Further properties of the code *)

(** ** [center2edge] *)

Lemma length_diff (x : list Q) : length (diff x) = (length x - 1)%nat.
Proof.
  induction x as [|a t IH]; [reflexivity|].
  destruct t as [|b t]; [reflexivity|].
  change (diff (a :: b :: t)) with ((b - a) :: diff (b :: t)).
  cbn [length] in *. lia.
Qed.

Lemma nth_diff (x : list Q) (i : nat) :
  (S i < length x)%nat -> nth i (diff x) 0 = nth (S i) x 0 - nth i x 0.
Proof.
  revert i. induction x as [|a t IH]; intros i Hi; cbn [length] in Hi; [lia|].
  destruct t as [|b t]; [cbn [length] in Hi; lia|].
  change (diff (a :: b :: t)) with ((b - a) :: diff (b :: t)).
  destruct i as [|i]; [reflexivity|].
  cbn [nth]. apply (IH i). cbn [length] in *. lia.
Qed.

Lemma nth_mids (a : Q) (t : list Q) (i : nat) :
  (i < length t)%nat ->
  nth i (mids a t) 0 = nth i (a :: t) 0 + (1#2) * (nth i t 0 - nth i (a :: t) 0).
Proof.
  revert a i. induction t as [|b t IH]; intros a i Hi; cbn [length] in Hi; [lia|].
  destruct i as [|i]; [reflexivity|].
  cbn [mids nth]. rewrite IH by lia. reflexivity.
Qed.

Lemma nth_last_edge (a : Q) (t : list Q) (d : Q) :
  nth (length t) (edges_from a t d) 0
  = nth (length t) (a :: t) 0
    + (1#2) * match t with
              | [] => d
              | _ :: _ => nth (length t) (a :: t) 0 - nth (length t - 1) (a :: t) 0
              end.
Proof.
  revert a d. induction t as [|b t IH]; intros a d; [reflexivity|].
  cbn [length edges_from].
  change (nth (S (length t))
            ((a + (1 # 2) * (b - a)) :: edges_from b t (b - a)) 0)
    with (nth (length t) (edges_from b t (b - a)) 0).
  rewrite IH.
  change (nth (S (length t)) (a :: b :: t) 0) with (nth (length t) (b :: t) 0).
  replace (S (length t) - 1)%nat with (length t) by lia.
  destruct t as [|c t]; [reflexivity|].
  cbn [length]. replace (S (length t) - 1)%nat with (length t) by lia.
  reflexivity.
Qed.

(** The edges [center2edge] returns, entry by entry. *)
Lemma center2edge_nth (x edge : list Q) :
  center2edge x = Ok edge ->
  (2 <= length x)%nat /\
  length edge = S (length x) /\
  nth 0 edge 0 = nth 0 x 0 - (1#2) * (nth 1 x 0 - nth 0 x 0) /\
  (forall i, (1 <= i < length x)%nat ->
     nth i edge 0 = nth (i - 1) x 0 + (1#2) * (nth i x 0 - nth (i - 1) x 0)) /\
  nth (length x) edge 0
  = nth (length x - 1) x 0
    + (1#2) * (nth (length x - 1) x 0 - nth (length x - 2) x 0).
Proof.
  intros He. destruct x as [|a [|b t]]; try discriminate.
  rewrite center2edge_cons2 in He.
  assert (E : edge = (a - (1#2) * (b - a)) :: edges_from a (b :: t) (b - a))
    by congruence.
  subst edge. clear He.
  split; [cbn [length]; lia|].
  split; [cbn [length]; now rewrite length_edges_from|].
  split; [reflexivity|].
  split.
  - intros i Hi. destruct i as [|i]; [lia|].
    cbn [nth]. rewrite (edges_from_split a (b :: t) (b - a)).
    rewrite app_nth1 by (rewrite length_mids; cbn [length] in *; lia).
    rewrite nth_mids by (cbn [length] in *; lia).
    replace (S i - 1)%nat with i by lia. reflexivity.
  - change (length (a :: b :: t)) with (S (S (length t))).
    replace (S (S (length t)) - 1)%nat with (S (length t)) by lia.
    replace (S (S (length t)) - 2)%nat with (length t) by lia.
    change (nth (S (S (length t)))
              ((a - (1 # 2) * (b - a)) :: edges_from a (b :: t) (b - a)) 0)
      with (nth (length (b :: t)) (edges_from a (b :: t) (b - a)) 0).
    rewrite nth_last_edge. cbn [length].
    replace (S (length t) - 1)%nat with (length t) by lia. reflexivity.
Qed.

(** X1.  [center2edge] raises [IndexError] on fewer than two centres and
    nothing else; on N >= 2 centres it returns N + 1 edges. *)
Theorem center2edge_outcome (x : list Q) :
  match center2edge x with
  | Ok edge => (2 <= length x)%nat /\ length edge = S (length x)
  | Raise e => e = IndexError /\ (length x < 2)%nat
  end.
Proof.
  destruct (center2edge x) as [edge|e] eqn:E.
  - destruct (center2edge_nth x edge E) as [H2 [HL _]]. auto.
  - destruct (Nat.lt_ge_cases (length x) 2) as [Hs|Hl].
    + rewrite center2edge_short in E by exact Hs. split; [congruence | exact Hs].
    + destruct x as [|a [|b t]]; cbn [length] in Hl; try lia.
      rewrite center2edge_cons2 in E. discriminate.
Qed.

(** X2.  The edges are the two outer edges, half a gap beyond the first and
    the last centre, and the midpoints of consecutive centres between. *)
Theorem center2edge_midpoints (x edge : list Q) :
  center2edge x = Ok edge ->
  nth 0 edge 0 == nth 0 x 0 - (1#2) * (nth 1 x 0 - nth 0 x 0) /\
  (forall i, (1 <= i < length x)%nat ->
     nth i edge 0 == (1#2) * (nth (i - 1) x 0 + nth i x 0)) /\
  nth (length x) edge 0
  == nth (length x - 1) x 0
     + (1#2) * (nth (length x - 1) x 0 - nth (length x - 2) x 0).
Proof.
  intros He. destruct (center2edge_nth x edge He) as [_ [_ [H0 [Hi HN]]]].
  split; [rewrite H0; reflexivity|]. split.
  - intros i Hr. rewrite (Hi i Hr). ring.
  - rewrite HN. reflexivity.
Qed.

Lemma center2edge_midpoints_witness :
  exists edge,
    center2edge test_wave = Ok edge /\
    nth 0 edge 0 == nth 0 test_wave 0 - (1#2) * (nth 1 test_wave 0 - nth 0 test_wave 0) /\
    (forall i, (1 <= i < length test_wave)%nat ->
       nth i edge 0 == (1#2) * (nth (i - 1) test_wave 0 + nth i test_wave 0)) /\
    nth (length test_wave) edge 0
    == nth (length test_wave - 1) test_wave 0
       + (1#2) * (nth (length test_wave - 1) test_wave 0
                  - nth (length test_wave - 2) test_wave 0).
Proof.
  eexists. split; [vm_compute; reflexivity|].
  apply (center2edge_midpoints test_wave). vm_compute. reflexivity.
Defined.

(** X3.  On strictly increasing centres the edges are strictly increasing
    and every centre lies strictly inside its pixel. *)
Theorem center2edge_brackets (x edge : list Q) :
  strictly_increasing x = true -> center2edge x = Ok edge ->
  strictly_increasing edge = true /\
  forall i, (i < length x)%nat ->
    nth i edge 0 < nth i x 0 /\ nth i x 0 < nth (S i) edge 0.
Proof.
  intros Hx He. split; [now apply (center2edge_increasing x)|].
  destruct (center2edge_nth x edge He) as [Hn [_ [H0 [Hi HN]]]].
  assert (Hstep : forall j, (S j < length x)%nat -> nth j x 0 < nth (S j) x 0).
  { intros j Hj. apply strictly_increasing_nth; [exact Hx | lia | lia]. }
  intros i Hlt. split.
  - destruct i as [|i].
    + rewrite H0. pose proof (Hstep O ltac:(lia)). lra.
    + rewrite (Hi (S i)) by lia. replace (S i - 1)%nat with i by lia.
      pose proof (Hstep i ltac:(lia)). lra.
  - destruct (Nat.eq_dec (S i) (length x)) as [E|E].
    + rewrite E, HN. replace (length x - 1)%nat with i by lia.
      replace (length x - 2)%nat with (i - 1)%nat by lia.
      pose proof (Hstep (i - 1)%nat ltac:(lia)) as Hs.
      replace (S (i - 1)) with i in Hs by lia. lra.
    + rewrite (Hi (S i)) by lia. replace (S i - 1)%nat with i by lia.
      pose proof (Hstep i ltac:(lia)). lra.
Qed.

Lemma center2edge_brackets_witness :
  exists edge,
    center2edge test_wave = Ok edge /\
    strictly_increasing edge = true /\
    forall i, (i < length test_wave)%nat ->
      nth i edge 0 < nth i test_wave 0 /\ nth i test_wave 0 < nth (S i) edge 0.
Proof.
  eexists. split; [vm_compute; reflexivity|].
  apply (center2edge_brackets test_wave); vm_compute; reflexivity.
Defined.

(** X4.  Uniformly spaced centres give uniformly spaced edges of the same
    spacing, and every centre is then the midpoint of its pixel. *)
Theorem center2edge_uniform (x edge : list Q) (d : Q) :
  center2edge x = Ok edge ->
  (forall i, (S i < length x)%nat -> nth (S i) x 0 - nth i x 0 == d) ->
  forall i, (i < length x)%nat ->
    nth (S i) edge 0 - nth i edge 0 == d /\
    (1#2) * (nth i edge 0 + nth (S i) edge 0) == nth i x 0.
Proof.
  intros He Hd i Hlt.
  destruct (center2edge_nth x edge He) as [Hn [_ [H0 [Hi HN]]]].
  assert (Elo : nth i edge 0 == nth i x 0 - (1#2) * d).
  { destruct i as [|i].
    - rewrite H0. pose proof (Hd O ltac:(lia)). lra.
    - rewrite (Hi (S i)) by lia. replace (S i - 1)%nat with i by lia.
      pose proof (Hd i ltac:(lia)). lra. }
  assert (Ehi : nth (S i) edge 0 == nth i x 0 + (1#2) * d).
  { destruct (Nat.eq_dec (S i) (length x)) as [E|E].
    - rewrite E, HN. replace (length x - 1)%nat with i by lia.
      replace (length x - 2)%nat with (i - 1)%nat by lia.
      pose proof (Hd (i - 1)%nat ltac:(lia)) as Hs.
      replace (S (i - 1)) with i in Hs by lia. lra.
    - rewrite (Hi (S i)) by lia. replace (S i - 1)%nat with i by lia.
      pose proof (Hd i ltac:(lia)). lra. }
  split; lra.
Qed.

Lemma center2edge_uniform_witness :
  exists edge,
    center2edge test_wave = Ok edge /\
    forall i, (i < length test_wave)%nat ->
      nth (S i) edge 0 - nth i edge 0 == 1 /\
      (1#2) * (nth i edge 0 + nth (S i) edge 0) == nth i test_wave 0.
Proof.
  eexists. split; [vm_compute; reflexivity|].
  apply (center2edge_uniform test_wave); [vm_compute; reflexivity|].
  intros i Hi.
  do 9 (destruct i as [|i]; [vm_compute; reflexivity|]).
  vm_compute in Hi. lia.
Defined.

(** ** [mdwave] *)

Lemma length_insert_sorted (a : Q) (l : list Q) :
  length (insert_sorted a l) = S (length l).
Proof.
  induction l as [|b l IH]; [reflexivity|].
  cbn [insert_sorted]. destruct (Qle_bool a b); cbn [length]; auto.
Qed.

Lemma length_np_sort (l : list Q) : length (np_sort l) = length l.
Proof.
  induction l as [|a l IH]; [reflexivity|].
  cbn [np_sort]. rewrite length_insert_sorted. cbn [length]. auto.
Qed.

Lemma np_median_nan_iff (l : list Q) : np_median l = NaN <-> l = [].
Proof.
  unfold np_median. rewrite length_np_sort. split.
  - destruct l as [|a l]; [reflexivity|].
    cbn [length Nat.eqb]. destruct (Nat.odd (S (length l))); discriminate.
  - intros ->. reflexivity.
Qed.

(** The median lies between any two bounds of the entries. *)
Lemma np_median_between (l : list Q) (m lo hi : Q) :
  (forall v, In v l -> lo <= v /\ v <= hi) -> np_median l = Some m ->
  lo <= m /\ m <= hi.
Proof.
  intros Hb. unfold np_median.
  set (s := np_sort l).
  assert (Hs : forall k, (k < length s)%nat -> lo <= nth k s 0 /\ nth k s 0 <= hi).
  { intros k Hk. apply Hb, In_np_sort. now apply nth_In. }
  destruct (Nat.eqb_spec (length s) 0) as [|Hn]; [discriminate|].
  assert (Hhalf : (length s / 2 < length s)%nat)
    by (apply Nat.Div0.div_lt_upper_bound; lia).
  destruct (Nat.odd (length s)); intros H.
  - assert (m = nth (length s / 2) s 0) as -> by congruence.
    apply Hs. exact Hhalf.
  - assert (m = (nth (length s / 2 - 1) s 0 + nth (length s / 2) s 0) / 2) as ->
      by congruence.
    destruct (Hs (length s / 2 - 1)%nat ltac:(lia)).
    destruct (Hs (length s / 2)%nat Hhalf).
    split; [apply Qle_shift_div_l; lra | apply Qle_shift_div_r; lra].
Qed.

Lemma np_median_above (l : list Q) (m lo : Q) :
  (forall v, In v l -> lo < v) -> np_median l = Some m -> lo < m.
Proof.
  intros Hb. unfold np_median.
  set (s := np_sort l).
  assert (Hs : forall k, (k < length s)%nat -> lo < nth k s 0).
  { intros k Hk. apply Hb, In_np_sort. now apply nth_In. }
  destruct (Nat.eqb_spec (length s) 0) as [|Hn]; [discriminate|].
  assert (Hhalf : (length s / 2 < length s)%nat)
    by (apply Nat.Div0.div_lt_upper_bound; lia).
  destruct (Nat.odd (length s)); intros H.
  - assert (m = nth (length s / 2) s 0) as -> by congruence.
    apply Hs. exact Hhalf.
  - assert (m = (nth (length s / 2 - 1) s 0 + nth (length s / 2) s 0) / 2) as ->
      by congruence.
    pose proof (Hs (length s / 2 - 1)%nat ltac:(lia)).
    pose proof (Hs (length s / 2)%nat Hhalf).
    apply Qlt_shift_div_l; lra.
Qed.

Lemma In_diff_nth (x : list Q) (v : Q) :
  In v (diff x) ->
  exists i, (S i < length x)%nat /\ v = nth (S i) x 0 - nth i x 0.
Proof.
  intros Hv. destruct (In_nth _ _ 0 Hv) as [i [Hi <-]].
  rewrite length_diff in Hi. exists i. split; [lia|]. apply nth_diff. lia.
Qed.

(** X5.  [mdwave] is NaN exactly on arrays of fewer than two entries. *)
Theorem mdwave_nan_iff (wave : list Q) :
  mdwave wave = NaN <-> (length wave < 2)%nat.
Proof.
  unfold mdwave. rewrite np_median_nan_iff.
  pose proof (length_diff wave) as L. split.
  - intros E. rewrite E in L. cbn [length] in L. lia.
  - intros H. destruct (diff wave); [reflexivity | cbn [length] in L; lia].
Qed.

(** X6.  On two or more entries [mdwave] is a number between the smallest
    and the largest consecutive difference; on a uniformly spaced array it
    is the spacing. *)
Theorem mdwave_between (wave : list Q) (lo hi : Q) :
  (2 <= length wave)%nat ->
  (forall i, (S i < length wave)%nat ->
     lo <= nth (S i) wave 0 - nth i wave 0 /\ nth (S i) wave 0 - nth i wave 0 <= hi) ->
  exists d, mdwave wave = Some d /\ lo <= d /\ d <= hi.
Proof.
  intros Hn Hb.
  destruct (mdwave wave) as [d|] eqn:E.
  - exists d. split; [reflexivity|].
    apply (np_median_between (diff wave)); [|exact E].
    intros v Hv. destruct (In_diff_nth _ _ Hv) as [i [Hi ->]]. now apply Hb.
  - apply mdwave_nan_iff in E. lia.
Qed.

Lemma mdwave_between_witness :
  exists d, mdwave example_wave = Some d /\ 1 <= d /\ d <= 4.
Proof.
  apply (mdwave_between example_wave 1 4); [vm_compute; lia|].
  intros i Hi.
  do 3 (destruct i as [|i]; [vm_compute; split; discriminate|]).
  vm_compute in Hi. lia.
Defined.

(** X7.  On a strictly increasing array of two or more entries [mdwave] is
    positive and not larger than [max - min]. *)
Theorem mdwave_increasing (wave : list Q) :
  strictly_increasing wave = true -> (2 <= length wave)%nat ->
  exists d lo hi,
    mdwave wave = Some d /\ np_min wave = Ok lo /\ np_max wave = Ok hi /\
    0 < d /\ d <= hi - lo.
Proof.
  intros Hinc Hn.
  destruct (mdwave wave) as [d|] eqn:E; [|apply mdwave_nan_iff in E; lia].
  destruct wave as [|a t]; [cbn [length] in Hn; lia|].
  exists d, (fold_left Qmin t a), (fold_left Qmax t a).
  split; [reflexivity|]. split; [reflexivity|]. split; [reflexivity|]. split.
  - apply (np_median_above (diff (a :: t))); [|exact E].
    intros v Hv. destruct (In_diff_nth _ _ Hv) as [i [Hi ->]].
    pose proof (strictly_increasing_nth (a :: t) i (S i) Hinc ltac:(lia) Hi). lra.
  - now apply (mdwave_le_ptp (a :: t)).
Qed.

Lemma mdwave_increasing_witness :
  exists d lo hi,
    mdwave example_wave = Some d /\ np_min example_wave = Ok lo /\
    np_max example_wave = Ok hi /\ 0 < d /\ d <= hi - lo.
Proof.
  apply (mdwave_increasing example_wave); vm_compute; [reflexivity | lia].
Defined.

(** ** [wave_log10] *)

(** X8.  With the default spacing, [wave_log10] raises [ValueError] on an
    array of fewer than two entries. *)
Theorem wave_log10_short (wave : list Q) :
  (length wave < 2)%nat -> wave_log10 wave None = Raise ValueError.
Proof.
  destruct wave as [|a [|b t]]; cbn [length]; intros H; try lia; reflexivity.
Qed.

Lemma wave_log10_short_witness : wave_log10 [5] None = Raise ValueError.
Proof. apply (wave_log10_short [5]). cbn [length]. lia. Defined.

(** X9.  A zero spacing makes [wave_log10] raise: [OverflowError] when the
    array has a positive range, [ValueError] when its range is zero. *)
Theorem wave_log10_zero_spacing (wave : list Q) (d ptp : Q) :
  np_ptp wave = Ok ptp -> d == 0 ->
  wave_log10 wave (Some d)
  = Raise (if Qeq_bool ptp 0 then ValueError else OverflowError).
Proof.
  intros Hp Hd. unfold wave_log10. rewrite Hp. cbn [bind]. unfold npix_of.
  rewrite (proj2 (Qeq_bool_iff d 0) Hd).
  destruct (Qeq_bool ptp 0); reflexivity.
Qed.

Lemma wave_log10_zero_spacing_witness :
  wave_log10 example_wave (Some 0) = Raise OverflowError.
Proof.
  apply (wave_log10_zero_spacing example_wave 0 (8 - 1)); vm_compute; reflexivity.
Defined.

Lemma np_ptp_nonneg (wave : list Q) (ptp : Q) : np_ptp wave = Ok ptp -> 0 <= ptp.
Proof.
  destruct wave as [|a t]; [discriminate|].
  unfold np_ptp. cbn [np_max np_min bind]. intros H.
  assert (ptp = fold_left Qmax t a - fold_left Qmin t a) as -> by congruence.
  destruct (fold_max_ge t a) as [H1 _]. destruct (fold_min_le t a) as [H2 _]. lra.
Qed.

Lemma np_ptp_min_max (wave : list Q) (lo hi : Q) :
  np_min wave = Ok lo -> np_max wave = Ok hi -> np_ptp wave = Ok (hi - lo).
Proof. intros Hl Hh. unfold np_ptp. now rewrite Hh, Hl. Qed.

Lemma linspace_one (start stop : R) :
  linspace start stop 1 = Ok [(0 * (stop - start) + start)%R].
Proof. reflexivity. Qed.

(** X10.  With [min(wave) > 0] and a supplied positive spacing larger than
    [max(wave) - min(wave)], the grid is the single sample [min(wave)]. *)
Theorem wave_log10_single_sample (wave : list Q) (d lo hi : Q) :
  np_min wave = Ok lo -> np_max wave = Ok hi ->
  0 < lo -> hi - lo < d ->
  wave_log10 wave (Some d) = Ok (LogGrid [Q2R lo]).
Proof.
  intros Hmin Hmax Hlo Hd.
  pose proof (np_ptp_nonneg wave _ (np_ptp_min_max wave lo hi Hmin Hmax)) as Hp.
  assert (Hq0 : 0 <= (hi - lo) / d) by (apply Qle_shift_div_l; lra).
  assert (Hq1 : (hi - lo) / d < 1) by (apply Qlt_shift_div_r; lra).
  assert (Hfl : Qfloor ((hi - lo) / d) = 0%Z).
  { pose proof (Qfloor_resp_le _ _ Hq0) as A. change (Qfloor 0) with 0%Z in A.
    pose proof (Qfloor_le ((hi - lo) / d)) as B.
    assert (C : inject_Z (Qfloor ((hi - lo) / d)) < inject_Z 1)
      by exact (Qle_lt_trans _ _ _ B Hq1).
    rewrite <- Zlt_Qlt in C. lia. }
  unfold wave_log10. rewrite (np_ptp_min_max wave lo hi Hmin Hmax), Hmin, Hmax.
  cbn [bind]. unfold npix_of.
  destruct (Qeq_bool d 0) eqn:E0; [apply Qeq_bool_eq in E0; lra|].
  rewrite py_int_floor by exact Hq0. rewrite Hfl. cbn [bind Z.add Z.ltb Z.eqb Z.compare].
  destruct (Qle_bool lo 0) eqn:El; [apply Qle_bool_iff in El; lra|].
  assert (Hpos : (0 < Q2R lo)%R).
  { rewrite <- RMicromega.Q2R_0. now apply Qlt_Rlt. }
  unfold logspace. rewrite linspace_one. cbn [bind map].
  do 3 f_equal. rewrite Rmult_0_l, Rplus_0_l. now apply Rpower_10_log10.
Qed.

Lemma wave_log10_single_sample_witness :
  wave_log10 example_wave (Some 10) = Ok (LogGrid [Q2R 1]).
Proof.
  apply (wave_log10_single_sample example_wave 10 1 8); vm_compute; reflexivity.
Defined.




(** The samples of the grid, for a spacing within the range. *)
Lemma wave_log10_samples (wave : list Q) (dwave : option Q) (spacing lo hi : Q) :
  np_min wave = Ok lo -> np_max wave = Ok hi ->
  match dwave with Some d => Some d | None => mdwave wave end = Some spacing ->
  0 < lo -> 0 < spacing -> spacing <= hi - lo ->
  exists g,
    wave_log10 wave dwave = Ok (LogGrid g) /\
    (1 <= Qfloor ((hi - lo) / spacing))%Z /\
    Z.of_nat (length g) = (Qfloor ((hi - lo) / spacing) + 1)%Z /\
    forall k, (k < length g)%nat ->
      nth k g 0%R
      = Rpower 10 (log10 (Q2R lo)
                   + IZR (Z.of_nat k)
                     * ((log10 (Q2R hi) - log10 (Q2R lo))
                        / IZR (Qfloor ((hi - lo) / spacing))))%R.
Proof.
  intros Hmin Hmax Hd Hlo Hsp Hle.
  assert (Hq : 1 <= (hi - lo) / spacing) by (apply Qle_shift_div_l; lra).
  assert (Hfl : (1 <= Qfloor ((hi - lo) / spacing))%Z).
  { apply Qfloor_resp_le in Hq. exact Hq. }
  set (n := Qfloor ((hi - lo) / spacing)) in *.
  assert (Hnpix : npix_of (hi - lo) (Some spacing) = Ok (n + 1)%Z).
  { unfold npix_of.
    destruct (Qeq_bool spacing 0) eqn:E0; [apply Qeq_bool_eq in E0; lra|].
    rewrite py_int_floor by lra. reflexivity. }
  destruct (nth_linspace (log10 (Q2R lo)) (log10 (Q2R hi)) (n + 1) 0
              ltac:(lia) ltac:(lia)) as [y [Hy _]].
  pose proof (length_linspace _ _ _ _ Hy) as Ly.
  exists (map (Rpower 10) y). split.
  { unfold wave_log10. rewrite Hd, (np_ptp_min_max wave lo hi Hmin Hmax), Hmin, Hmax.
    cbn [bind]. rewrite Hnpix. cbn [bind].
    destruct (Z.ltb_spec (n + 1) 0) as [|_]; [lia|].
    destruct (Z.eqb_spec (n + 1) 0) as [|_]; [lia|].
    destruct (Qle_bool lo 0) eqn:El; [apply Qle_bool_iff in El; lra|].
    unfold logspace. rewrite Hy. reflexivity. }
  split; [exact Hfl|]. split; [rewrite length_map; exact Ly|].
  intros k Hk. rewrite length_map in Hk.
  rewrite (nth_map_in _ _ _ 0%R) by lia. f_equal.
  destruct (nth_linspace (log10 (Q2R lo)) (log10 (Q2R hi)) (n + 1) k
              ltac:(lia) ltac:(lia)) as [y' [Hy' Hk']].
  rewrite Hy in Hy'. assert (y' = y) by congruence. subst y'.
  rewrite Hk'. replace (n + 1 - 1)%Z with n by lia. reflexivity.
Qed.

Lemma log10_increasing (a b : R) : (0 < a)%R -> (a < b)%R -> (log10 a < log10 b)%R.
Proof.
  intros Ha Hab. unfold log10.
  apply Rmult_lt_compat_r; [apply Rinv_0_lt_compat, ln_10_pos|].
  now apply ln_increasing.
Qed.

(** X12.  For a strictly increasing array of two or more positive entries
    the default grid has at least two samples, is strictly increasing, and
    stays within [min(wave), max(wave)]. *)
Theorem wave_log10_default_grid (wave : list Q) (lo hi : Q) :
  strictly_increasing wave = true -> (2 <= length wave)%nat ->
  np_min wave = Ok lo -> np_max wave = Ok hi -> 0 < lo ->
  exists g,
    wave_log10 wave None = Ok (LogGrid g) /\
    (2 <= length g)%nat /\
    (forall k, (S k < length g)%nat -> (nth k g 0 < nth (S k) g 0)%R) /\
    (forall k, (k < length g)%nat -> (Q2R lo <= nth k g 0 <= Q2R hi)%R).
Proof.
  intros Hinc Hn Hmin Hmax Hlo.
  destruct (mdwave_increasing wave Hinc Hn) as [d [lo' [hi' [Hd [Hmin' [Hmax' [Hd0 Hdle]]]]]]].
  assert (lo' = lo) by congruence. assert (hi' = hi) by congruence. subst lo' hi'.
  destruct (wave_log10_samples wave None d lo hi Hmin Hmax Hd Hlo Hd0 Hdle)
    as [g [Hg [Hfl [Lg Hnth]]]].
  set (n := Qfloor ((hi - lo) / d)) in *.
  assert (Hpos_lo : (0 < Q2R lo)%R).
  { rewrite <- RMicromega.Q2R_0. now apply Qlt_Rlt. }
  assert (Hlt : (Q2R lo < Q2R hi)%R) by (apply Qlt_Rlt; lra).
  pose proof (log10_increasing _ _ Hpos_lo Hlt) as HL.
  assert (Hn0 : (0 < IZR n)%R) by (apply IZR_lt; lia).
  set (L := log10 (Q2R lo)) in *. set (H := log10 (Q2R hi)) in *.
  assert (Hstep : (0 < (H - L) / IZR n)%R).
  { apply Rdiv_lt_0_compat; lra. }
  exists g. split; [exact Hg|]. split; [lia|]. split.
  - intros k Hk. rewrite !Hnth by lia.
    apply Rpower_lt; [lra|].
    replace (Z.of_nat (S k)) with (Z.of_nat k + 1)%Z by lia.
    rewrite plus_IZR. nra.
  - intros k Hk. rewrite Hnth by lia.
    assert (Hk0 : (0 <= IZR (Z.of_nat k))%R) by (apply IZR_le; lia).
    assert (Hkn : (IZR (Z.of_nat k) <= IZR n)%R) by (apply IZR_le; lia).
    assert (Hfull : (IZR n * ((H - L) / IZR n) = H - L)%R) by (field; lra).
    assert (EL : Rpower 10 L = Q2R lo) by (now apply Rpower_10_log10).
    assert (EH : Rpower 10 H = Q2R hi) by (apply Rpower_10_log10; lra).
    rewrite <- EL at 1. rewrite <- EH.
    split; apply Rle_Rpower; try lra; nra.
Qed.

Lemma wave_log10_default_grid_witness :
  exists g,
    wave_log10 example_wave None = Ok (LogGrid g) /\
    (2 <= length g)%nat /\
    (forall k, (S k < length g)%nat -> (nth k g 0 < nth (S k) g 0)%R) /\
    (forall k, (k < length g)%nat -> (Q2R 1 <= nth k g 0 <= Q2R 8)%R).
Proof.
  apply (wave_log10_default_grid example_wave 1 8); vm_compute; try reflexivity; lia.
Defined.

(** ** [rebin] *)

(** X13.  A grid of fewer than two pixels, old or new, makes [rebin] raise
    [IndexError], whatever the data arrays and their shapes are. *)
Theorem rebin_short_grid (nan_as_int : Z)
    (wave_log10_float : list Q -> result (list Q))
    (wave : list Q) (flux flux_err : option (list Q)) (mask : option (list bool))
    (wave_new : list Q) :
  (length wave < 2)%nat \/ (length wave_new < 2)%nat ->
  rebin nan_as_int wave_log10_float wave flux flux_err mask (Some wave_new)
  = Raise IndexError.
Proof.
  intros H. unfold rebin, map_pixels. cbn [bind].
  destruct (Nat.lt_ge_cases (length wave) 2) as [Hw|Hw].
  - now rewrite (center2edge_short wave Hw).
  - destruct H as [H|H]; [lia|].
    destruct wave as [|a [|b t]]; cbn [length] in Hw; try lia.
    rewrite center2edge_cons2. cbn [bind].
    now rewrite (center2edge_short wave_new H).
Qed.

Lemma rebin_short_grid_witness :
  rebin INT64_MIN no_np_int test_wave (Some [1; 1; 1]) None None (Some [5])
  = Raise IndexError.
Proof.
  apply (rebin_short_grid INT64_MIN no_np_int test_wave (Some [1; 1; 1]) None None [5]).
  right. cbn [length]. lia.
Defined.

(** X14.  On well-formed grids and arrays of the right shape, [rebin]
    returns one array for each supplied input and no other, in the order
    flux, flux error, mask, each with one entry for every new pixel. *)
Theorem rebin_result_mirrors_inputs (nan_as_int : Z)
    (wave_log10_float : list Q -> result (list Q))
    (wave : list Q) (flux flux_err : option (list Q)) (mask : option (list bool))
    (wave_new : list Q) :
  strictly_increasing wave = true ->
  (2 <= length wave)%nat -> (2 <= length wave_new)%nat ->
  shape_ok flux wave = true -> shape_ok flux_err wave = true ->
  shape_ok mask wave = true ->
  exists r,
    rebin nan_as_int wave_log10_float wave flux flux_err mask (Some wave_new) = Ok r /\
    map kind_of r = supplied_kinds flux flux_err mask /\
    Forall (fun a => array_length a = length wave_new) r.
Proof.
  intros Hinc Hn Hm Sf Se Sm.
  destruct (rebin_increasing nan_as_int wave_log10_float wave flux flux_err mask
              wave_new Hinc Hn Hm Sf Se Sm)
    as [wave_edge [wave_new_edge [E1 [E2 [_ ER]]]]].
  destruct (grids_ok wave wave_new Hinc Hn Hm)
    as [we [wne [E1g [E2g [L1 [L2 _]]]]]].
  assert (wne = wave_new_edge) by congruence. subst wne.
  eexists. split; [exact ER|].
  assert (Lp : length (wave_new_edge_pos2
                  (project_edges nan_as_int
                     (Interp1d (removelast wave_edge) (arange (length wave)))
                     wave_new_edge)) = length wave_new)
    by (rewrite length_pos2; lia).
  unfold expected_result, supplied_kinds.
  destruct flux, flux_err, mask; cbn [app map kind_of]; split; try reflexivity;
    repeat constructor; cbn [array_length]; now rewrite length_map.
Qed.

Lemma rebin_result_mirrors_inputs_witness :
  exists r,
    rebin INT64_MIN no_np_int test_wave (Some test_flux) None (Some example_mask)
      (Some test_wave_new) = Ok r /\
    map kind_of r = supplied_kinds (Some test_flux) None (Some example_mask) /\
    Forall (fun a => array_length a = length test_wave_new) r.
Proof.
  apply (rebin_result_mirrors_inputs INT64_MIN no_np_int test_wave (Some test_flux) None
           (Some example_mask) test_wave_new);
    vm_compute; try reflexivity; lia.
Defined.

Lemma searchsorted_between (x : list Q) (s : nat) (v : Q) :
  strictly_increasing x = true -> (s <= length x)%nat ->
  (forall j, (j < s)%nat -> nth j x 0 < v) ->
  ((s < length x)%nat -> v <= nth s x 0) ->
  searchsorted x v = s.
Proof.
  intros Hx Hs Hbelow Hat.
  pose proof (searchsorted_le_length x v) as Hle.
  destruct (Nat.lt_trichotomy (searchsorted x v) s) as [Hlt|[Heq|Hgt]].
  - exfalso. pose proof (searchsorted_at x v ltac:(lia)) as A.
    pose proof (Hbelow _ Hlt). lra.
  - exact Heq.
  - exfalso. pose proof (searchsorted_below x v s Hgt) as B.
    pose proof (Hat ltac:(lia)). lra.
Qed.

(** Inside the k-th interval of the nodes the interpolant is k plus the
    fraction of the interval below the point. *)
Lemma call_linear_in_interval (x : list Q) (k : nat) (v : Q) :
  strictly_increasing x = true -> (S k < length x)%nat ->
  nth k x 0 <= v -> v < nth (S k) x 0 ->
  call_linear (Interp1d x (arange (length x))) v
  == inject_Z (Z.of_nat k) + (v - nth k x 0) / (nth (S k) x 0 - nth k x 0).
Proof.
  intros Hx Hk Hlo Hhi.
  assert (Hw : nth k x 0 < nth (S k) x 0)
    by (apply strictly_increasing_nth; [exact Hx | lia | lia]).
  unfold call_linear. cbn [ix iy].
  destruct (Qlt_le_dec (nth k x 0) v) as [Hin|Heq].
  - rewrite (searchsorted_between x (S k) v Hx ltac:(lia)).
    + unfold clip. rewrite Nat.max_l by lia. rewrite Nat.min_l by lia.
      replace (S k - 1)%nat with k by lia.
      rewrite !nth_arange by lia.
      pose proof (arange_step (S k) ltac:(lia)) as Hdy.
      replace (S k - 1)%nat with k in Hdy by lia.
      rewrite Hdy. field. lra.
    + intros j Hj. destruct (Nat.eq_dec j k) as [->|Hne]; [exact Hin|].
      pose proof (strictly_increasing_nth x j k Hx ltac:(lia) ltac:(lia)). lra.
    + intros _. lra.
  - assert (Ev : v == nth k x 0) by lra.
    rewrite (searchsorted_between x k v Hx ltac:(lia)).
    + unfold clip. destruct k as [|k].
      * cbn [Nat.max]. rewrite Nat.min_l by lia. cbn [Nat.sub].
        rewrite !nth_arange by lia.
        pose proof (arange_step 1 ltac:(lia)) as Hdy. cbn [Nat.sub] in Hdy.
        rewrite Hdy. field. lra.
      * rewrite Nat.max_l by lia. rewrite Nat.min_l by lia.
        replace (S k - 1)%nat with k by lia.
        rewrite !nth_arange by lia.
        pose proof (arange_step (S k) ltac:(lia)) as Hdy.
        replace (S k - 1)%nat with k in Hdy by lia.
        pose proof (strictly_increasing_nth x k (S k) Hx ltac:(lia) ltac:(lia)) as Hw'.
        rewrite Hdy, Ev.
        replace (Z.of_nat (S k)) with (Z.of_nat k + 1)%Z by lia.
        rewrite inject_Z_plus. field. split; lra.
    + intros j Hj.
      pose proof (strictly_increasing_nth x j k Hx ltac:(lia) ltac:(lia)). lra.
    + intros _. exact Heq.
Qed.

Lemma Qfloor_unique (p : Q) (k : Z) :
  inject_Z k <= p -> p < inject_Z (k + 1) -> Qfloor p = k.
Proof.
  intros Hlo Hhi.
  pose proof (Qfloor_resp_le _ _ Hlo) as A. rewrite Qfloor_Z in A.
  pose proof (Qfloor_le p) as B.
  assert (C : inject_Z (Qfloor p) < inject_Z (k + 1)) by exact (Qle_lt_trans _ _ _ B Hhi).
  rewrite <- Zlt_Qlt in C. lia.
Qed.

(** X15.  A point inside old pixel k, between the old edges k and k + 1 with
    k + 1 <= N - 1, maps to k plus the fraction of the pixel that lies below
    the point; its floor is k. *)
Theorem edge_position_in_pixel (wave wave_edge : list Q) (I : interp1d)
    (k : nat) (q : Q) :
  strictly_increasing wave = true -> (2 <= length wave)%nat ->
  center2edge wave = Ok wave_edge ->
  make_interp1d (removelast wave_edge) (arange (length wave)) = Ok I ->
  (S k < length wave)%nat ->
  nth k wave_edge 0 <= q -> q < nth (S k) wave_edge 0 ->
  exists p,
    interp1d_call I q = Some p /\
    p == inject_Z (Z.of_nat k)
         + (q - nth k wave_edge 0) / (nth (S k) wave_edge 0 - nth k wave_edge 0) /\
    Qfloor p = Z.of_nat k.
Proof.
  intros Hinc Hn He HI Hk Hlo Hhi.
  destruct (grids_ok wave wave Hinc Hn Hn)
    as [we [_ [E1 [_ [L1 [_ [Xinc [Xlen [_ EI]]]]]]]]].
  assert (we = wave_edge) by congruence. subst we.
  assert (I = Interp1d (removelast wave_edge) (arange (length wave))) by congruence.
  subst I. set (x := removelast wave_edge) in *.
  assert (Hnth : forall j, (j < length wave)%nat -> nth j x 0 = nth j wave_edge 0).
  { intros j Hj. subst x. apply nth_removelast. lia. }
  rewrite <- Xlen. rewrite <- !Hnth in * by lia.
  assert (Hx0 : nth 0 x 0 <= q).
  { destruct k as [|k]; [exact Hlo|].
    pose proof (strictly_increasing_nth x 0 (S k) Xinc ltac:(lia) ltac:(lia)). lra. }
  assert (HxN : q <= nth (length x - 1) x 0).
  { destruct (Nat.eq_dec (S k) (length x - 1)) as [E|E]; [rewrite <- E; lra|].
    pose proof (strictly_increasing_nth x (S k) (length x - 1) Xinc
                  ltac:(lia) ltac:(lia)). lra. }
  exists (call_linear (Interp1d x (arange (length x))) q).
  split; [apply interp_some; [exact Xinc | lia | exact Hx0 | exact HxN]|].
  pose proof (call_linear_in_interval x k q Xinc ltac:(lia) Hlo Hhi) as Ep.
  split; [exact Ep|].
  assert (Hw : nth k x 0 < nth (S k) x 0)
    by (apply strictly_increasing_nth; [exact Xinc | lia | lia]).
  assert (H0 : 0 <= (q - nth k x 0) / (nth (S k) x 0 - nth k x 0))
    by (apply Qle_shift_div_l; lra).
  assert (H1 : (q - nth k x 0) / (nth (S k) x 0 - nth k x 0) < 1)
    by (apply Qlt_shift_div_r; lra).
  apply Qfloor_unique; rewrite Ep, ?inject_Z_plus; [lra|].
  change (inject_Z 1) with 1. lra.
Qed.

Lemma edge_position_in_pixel_witness :
  exists wave_edge I,
    center2edge test_wave = Ok wave_edge /\
    make_interp1d (removelast wave_edge) (arange (length test_wave)) = Ok I /\
    exists p,
      interp1d_call I (7#4) = Some p /\
      p == inject_Z (Z.of_nat 2)
           + ((7#4) - nth 2 wave_edge 0) / (nth 3 wave_edge 0 - nth 2 wave_edge 0) /\
      Qfloor p = Z.of_nat 2.
Proof.
  eexists. eexists.
  split; [vm_compute; reflexivity|]. split; [vm_compute; reflexivity|].
  apply (edge_position_in_pixel test_wave);
    vm_compute; try reflexivity; try lia; discriminate.
Defined.

(** The two positions of an unflagged pixel of an increasing new grid are in
    order, and their floors are indices of the old grid. *)
Lemma valid_pixel_order (x E : list Q) (i : nat) (lo hi : Q) :
  strictly_increasing x = true -> (2 <= length x)%nat ->
  strictly_increasing E = true -> (S i < length E)%nat ->
  interp1d_call (Interp1d x (arange (length x))) (nth i E 0) = Some lo ->
  interp1d_call (Interp1d x (arange (length x))) (nth (S i) E 0) = Some hi ->
  lo <= hi /\
  (0 <= Qfloor lo)%Z /\ (Qfloor lo <= Qfloor hi)%Z /\ (Qfloor hi < Z.of_nat (length x))%Z.
Proof.
  intros Xinc Hx2 Einc Hi Plo Phi.
  pose proof (floor_in_range x _ _ Xinc Hx2 Plo) as Flo.
  pose proof (floor_in_range x _ _ Xinc Hx2 Phi) as Fhi.
  destruct (interp_some_inv x _ _ Xinc Hx2 Plo) as [A1 [A2 Elo]].
  destruct (interp_some_inv x _ _ Xinc Hx2 Phi) as [B1 [B2 Ehi]].
  assert (Hlt : nth i E 0 < nth (S i) E 0)
    by (apply strictly_increasing_nth; [exact Einc | lia | lia]).
  pose proof (call_linear_mono x Xinc Hx2 _ _ A1 (Qlt_le_weak _ _ Hlt) B2) as Hmono.
  rewrite <- Elo, <- Ehi in Hmono.
  pose proof (Qfloor_resp_le _ _ Hmono). repeat split; try lia. exact Hmono.
Qed.

Lemma np_sum_app (l m : list Q) : np_sum (l ++ m) == np_sum l + np_sum m.
Proof.
  unfold np_sum at 1. rewrite fold_left_app, np_sum_from. reflexivity.
Qed.

Lemma firstn_split {A : Type} (l : list A) (a b : nat) :
  (a <= b)%nat -> firstn b l = firstn a l ++ firstn (b - a) (skipn a l).
Proof.
  revert a b. induction l as [|v l IH]; intros a b Hab.
  - now rewrite !firstn_nil, skipn_nil, firstn_nil.
  - destruct a as [|a]; [now rewrite Nat.sub_0_r|].
    destruct b as [|b]; [lia|].
    cbn [firstn skipn app Nat.sub]. f_equal. apply IH. lia.
Qed.

(** The formula is a difference of the accumulated old flux. *)
Lemma conserved_sum_cumulative (old : list Q) (lo hi : Q) :
  (0 <= Qfloor lo)%Z -> (Qfloor lo <= Qfloor hi)%Z ->
  conserved_sum old lo hi == cumulative_flux old hi - cumulative_flux old lo.
Proof.
  intros H0 Hle. unfold conserved_sum, cumulative_flux, sum_range.
  rewrite (firstn_split old (Z.to_nat (Qfloor lo)) (Z.to_nat (Qfloor hi))) by lia.
  rewrite np_sum_app. ring.
Qed.

(** The setting of an increasing new grid none of whose pixels is flagged. *)
Lemma unflagged_grid (nan_as_int : Z)
    (wave_log10_float : list Q -> result (list Q)) (wave flux wave_new : list Q)
    (M : pixel_map) :
  strictly_increasing wave = true -> strictly_increasing wave_new = true ->
  (2 <= length wave)%nat -> (2 <= length wave_new)%nat ->
  length flux = length wave ->
  map_pixels nan_as_int wave wave_new = Ok M ->
  forallb negb (flags M) = true ->
  exists x E,
    strictly_increasing x = true /\ length x = length wave /\
    strictly_increasing E = true /\ length E = S (length wave_new) /\
    length (wave_new_edge_pos2 M) = length wave_new /\
    (forall i, (i < length wave_new)%nat ->
       nth i (wave_new_edge_pos2 M) (NaN, NaN)
       = (interp1d_call (Interp1d x (arange (length x))) (nth i E 0),
          interp1d_call (Interp1d x (arange (length x))) (nth (S i) E 0))) /\
    (forall i, (i < length wave_new)%nat ->
       exists lo hi,
         interp1d_call (Interp1d x (arange (length x))) (nth i E 0) = Some lo /\
         interp1d_call (Interp1d x (arange (length x))) (nth (S i) E 0) = Some hi) /\
    rebin nan_as_int wave_log10_float wave (Some flux) None None (Some wave_new)
    = Ok [FloatArr (map (expected_value flux) (wave_new_edge_pos2 M))].
Proof.
  intros Hinc Hinc' Hn Hm Lf HM Hflags.
  destruct (rebin_increasing nan_as_int wave_log10_float wave (Some flux) None None
              wave_new Hinc Hn Hm)
    as [wave_edge [E [E1 [E2 [EM ER]]]]];
    try reflexivity; try (cbn [shape_ok]; now apply Nat.eqb_eq).
  destruct (grids_ok wave wave_new Hinc Hn Hm)
    as [we [wne [E1g [E2g [L1 [L2 [Xinc [Xlen _]]]]]]]].
  assert (we = wave_edge) by congruence.
  assert (wne = E) by congruence. subst we wne.
  rewrite HM in EM. assert (HMeq : M = project_edges nan_as_int
                                        (Interp1d (removelast wave_edge)
                                           (arange (length wave))) E) by congruence.
  clear EM. subst M.
  pose proof (center2edge_increasing wave_new E Hinc' E2) as Einc.
  exists (removelast wave_edge), E.
  rewrite Xlen.
  split; [exact Xinc|]. split; [reflexivity|]. split; [exact Einc|].
  split; [exact L2|]. split; [rewrite length_pos2; lia|].
  split; [intros i Hi; apply nth_pos2; lia|].
  split; [|exact ER].
  intros i Hi.
  assert (Hi' : (i < length E - 1)%nat) by lia.
  assert (Hf : nth i (flags (project_edges nan_as_int
                              (Interp1d (removelast wave_edge) (arange (length wave)))
                              E)) true = false).
  { rewrite forallb_forall in Hflags.
    apply negb_true_iff, Hflags, nth_In. rewrite length_flags. exact Hi'. }
  rewrite nth_flags in Hf by exact Hi'.
  destruct (interp1d_call _ (nth i E 0)) as [lo|]; [|discriminate].
  destruct (interp1d_call _ (nth (S i) E 0)) as [hi|]; [|discriminate].
  now exists lo, hi.
Qed.

(** X16.  Flux conservation.  For increasing grids and no flagged pixel, the
    rebinned fluxes sum to the old flux accumulated between the first and
    the last new edge: whole old pixels in full, the two end pixels by the
    fraction covered. *)
Theorem rebin_conserves_flux (nan_as_int : Z)
    (wave_log10_float : list Q -> result (list Q)) (wave flux wave_new : list Q)
    (M : pixel_map) :
  strictly_increasing wave = true -> strictly_increasing wave_new = true ->
  (2 <= length wave)%nat -> (2 <= length wave_new)%nat ->
  length flux = length wave ->
  map_pixels nan_as_int wave wave_new = Ok M ->
  forallb negb (flags M) = true ->
  exists flux_new p_first p_last,
    rebin nan_as_int wave_log10_float wave (Some flux) None None (Some wave_new)
    = Ok [FloatArr (map Some flux_new)] /\
    length flux_new = length wave_new /\
    fst (nth 0 (wave_new_edge_pos2 M) (NaN, NaN)) = Some p_first /\
    snd (nth (length wave_new - 1) (wave_new_edge_pos2 M) (NaN, NaN)) = Some p_last /\
    np_sum flux_new == cumulative_flux flux p_last - cumulative_flux flux p_first.
Proof.
  intros Hinc Hinc' Hn Hm Lf HM Hflags.
  destruct (unflagged_grid nan_as_int wave_log10_float wave flux wave_new M
              Hinc Hinc' Hn Hm Lf HM Hflags)
    as [x [E [Xinc [Xlen [Einc [LE [Lp [Hnth [Hvalid ER]]]]]]]]].
  set (I := Interp1d x (arange (length x))) in *.
  set (pos2 := wave_new_edge_pos2 M) in *.
  assert (Hx2 : (2 <= length x)%nat) by lia.
  assert (Hpix : forall i lo hi, (i < length wave_new)%nat ->
             interp1d_call I (nth i E 0) = Some lo ->
             interp1d_call I (nth (S i) E 0) = Some hi ->
             conserved_sum flux lo hi
             == cumulative_flux flux hi - cumulative_flux flux lo).
  { intros i lo hi Hi Plo Phi.
    destruct (valid_pixel_order x E i lo hi Xinc Hx2 Einc ltac:(lia) Plo Phi)
      as [_ [F0 [F1 _]]].
    now apply conserved_sum_cumulative. }
  set (value := fun p : fl * fl =>
                  match p with
                  | (Some lo, Some hi) => conserved_sum flux lo hi
                  | _ => 0
                  end).
  set (cum := fun e => match interp1d_call I e with
                       | Some p => cumulative_flux flux p
                       | None => 0
                       end).
  destruct (Hvalid O ltac:(lia)) as [p_first [_q [Pf _]]].
  destruct (Hvalid (length wave_new - 1)%nat ltac:(lia)) as [_q' [p_last [_ Pl]]].
  exists (map value pos2), p_first, p_last.
  split.
  { rewrite ER. rewrite map_map. do 3 f_equal. symmetry.
    apply map_ext_in. intros p Hp.
    destruct (In_nth _ _ (NaN, NaN) Hp) as [i [Hi <-]].
    rewrite Hnth by lia.
    destruct (Hvalid i ltac:(lia)) as [lo [hi [-> ->]]]. reflexivity. }
  split; [now rewrite length_map|].
  split; [rewrite Hnth by lia; now rewrite Pf|].
  split; [rewrite Hnth by lia; now rewrite Pl|].
  rewrite (telescope (map value pos2) (map cum E)).
  - rewrite length_map, Lp.
    rewrite !(nth_map_in cum _ _ 0) by lia.
    unfold cum. replace (length wave_new) with (S (length wave_new - 1)) at 1 by lia.
    rewrite Pl, Pf. reflexivity.
  - rewrite !length_map. lia.
  - intros i Hi. rewrite length_map, Lp in Hi.
    rewrite (nth_map_in value _ _ (NaN, NaN)) by lia.
    rewrite !(nth_map_in cum _ _ 0) by lia.
    rewrite Hnth by exact Hi. unfold cum.
    destruct (Hvalid i Hi) as [lo [hi [Plo Phi]]]. rewrite Plo, Phi. cbn [value].
    now apply (Hpix i).
Qed.

Lemma rebin_conserves_flux_witness :
  exists M,
    map_pixels INT64_MIN test_wave inner_wave_new = Ok M /\
    forallb negb (flags M) = true /\
    exists flux_new p_first p_last,
      rebin INT64_MIN no_np_int test_wave (Some test_wave) None None
        (Some inner_wave_new) = Ok [FloatArr (map Some flux_new)] /\
      length flux_new = length inner_wave_new /\
      fst (nth 0 (wave_new_edge_pos2 M) (NaN, NaN)) = Some p_first /\
      snd (nth (length inner_wave_new - 1) (wave_new_edge_pos2 M) (NaN, NaN))
      = Some p_last /\
      np_sum flux_new
      == cumulative_flux test_wave p_last - cumulative_flux test_wave p_first.
Proof.
  eexists. split; [vm_compute; reflexivity|]. split; [vm_compute; reflexivity|].
  apply (rebin_conserves_flux INT64_MIN no_np_int test_wave test_wave inner_wave_new);
    vm_compute; try reflexivity; lia.
Defined.

Lemma firstn_zip_with {A B C : Type} (h : A -> B -> C) (k : nat) (l : list A) (m : list B) :
  firstn k (zip_with h l m) = zip_with h (firstn k l) (firstn k m).
Proof.
  revert l m. induction k as [|k IH]; intros [|a l] [|b m]; cbn; try reflexivity.
  f_equal. apply IH.
Qed.

Lemma skipn_zip_with {A B C : Type} (h : A -> B -> C) (k : nat) (l : list A) (m : list B) :
  length l = length m ->
  skipn k (zip_with h l m) = zip_with h (skipn k l) (skipn k m).
Proof.
  revert l m. induction k as [|k IH]; intros [|a l] [|b m] H; cbn in *;
    try reflexivity; try discriminate.
  apply IH. lia.
Qed.

Lemma np_sum_zip_linear (c : Q) (l m : list Q) :
  length l = length m ->
  np_sum (zip_with (fun a b => c * a + b) l m) == c * np_sum l + np_sum m.
Proof.
  revert m. induction l as [|a l IH]; intros [|b m] H; cbn [length] in H;
    try discriminate.
  - cbn. ring.
  - cbn [zip_with]. rewrite !np_sum_cons, IH by lia. ring.
Qed.

Lemma conserved_sum_linear (c : Q) (f g : list Q) (lo hi : Q) :
  length f = length g ->
  (0 <= Qfloor lo < Z.of_nat (length f))%Z ->
  (0 <= Qfloor hi < Z.of_nat (length f))%Z ->
  conserved_sum (zip_with (fun a b => c * a + b) f g) lo hi
  == c * conserved_sum f lo hi + conserved_sum g lo hi.
Proof.
  intros Hlen Hlo Hhi. unfold conserved_sum, sum_range.
  rewrite skipn_zip_with, firstn_zip_with by exact Hlen.
  rewrite np_sum_zip_linear
    by (rewrite !length_firstn, !length_skipn; lia).
  rewrite !(nth_zip_with _ f g _ 0 0 0) by lia. ring.
Qed.

(** X17.  [rebin] is linear in the flux: rebinning [c * f + g] gives, pixel
    by pixel, [c] times the rebinned [f] plus the rebinned [g], and NaN on
    the flagged pixels of all three. *)
Theorem rebin_linear (nan_as_int : Z)
    (wave_log10_float : list Q -> result (list Q)) (wave f g wave_new : list Q)
    (c : Q) :
  strictly_increasing wave = true ->
  (2 <= length wave)%nat -> (2 <= length wave_new)%nat ->
  length f = length wave -> length g = length wave ->
  exists rf rg rh,
    rebin nan_as_int wave_log10_float wave (Some f) None None (Some wave_new)
    = Ok [FloatArr rf] /\
    rebin nan_as_int wave_log10_float wave (Some g) None None (Some wave_new)
    = Ok [FloatArr rg] /\
    rebin nan_as_int wave_log10_float wave
      (Some (zip_with (fun a b => c * a + b) f g)) None None (Some wave_new)
    = Ok [FloatArr rh] /\
    forall i, (i < length wave_new)%nat ->
      fl_eq (nth i rh NaN) (fl_add (fl_mul (Some c) (nth i rf NaN)) (nth i rg NaN)).
Proof.
  intros Hinc Hn Hm Lf Lg.
  assert (Lh : length (zip_with (fun a b => c * a + b) f g) = length wave)
    by (rewrite length_zip_with; lia).
  destruct (rebin_increasing nan_as_int wave_log10_float wave (Some f) None None
              wave_new Hinc Hn Hm)
    as [wave_edge [E [E1 [E2 [_ ERf]]]]];
    try reflexivity; try (cbn [shape_ok]; now apply Nat.eqb_eq).
  destruct (rebin_increasing nan_as_int wave_log10_float wave (Some g) None None
              wave_new Hinc Hn Hm)
    as [we [E' [E1' [E2' [_ ERg]]]]];
    try reflexivity; try (cbn [shape_ok]; now apply Nat.eqb_eq).
  assert (we = wave_edge) by congruence. assert (E' = E) by congruence. subst we E'.
  destruct (rebin_increasing nan_as_int wave_log10_float wave
              (Some (zip_with (fun a b => c * a + b) f g)) None None
              wave_new Hinc Hn Hm)
    as [we [E' [E1'' [E2'' [_ ERh]]]]];
    try reflexivity; try (cbn [shape_ok]; now apply Nat.eqb_eq).
  assert (we = wave_edge) by congruence. assert (E' = E) by congruence. subst we E'.
  destruct (grids_ok wave wave_new Hinc Hn Hm)
    as [we [wne [E1g [E2g [L1 [L2 [Xinc [Xlen _]]]]]]]].
  assert (we = wave_edge) by congruence. assert (wne = E) by congruence. subst we wne.
  eexists. eexists. eexists.
  split; [exact ERf|]. split; [exact ERg|]. split; [exact ERh|].
  intros i Hi.
  set (I := Interp1d (removelast wave_edge) (arange (length wave))) in *.
  assert (Hi' : (i < length E - 1)%nat) by lia.
  rewrite !(nth_map_in _ _ _ (NaN, NaN)) by (rewrite length_pos2; lia).
  rewrite nth_pos2 by exact Hi'.
  pose proof (floors_within_increasing (removelast wave_edge) E (length wave)
                Xinc ltac:(lia) ltac:(lia) i) as FW.
  fold I in FW.
  destruct (interp1d_call I (nth i E 0)) as [lo|]; [|exact Logic.I].
  destruct (interp1d_call I (nth (S i) E 0)) as [hi|]; [|exact Logic.I].
  destruct (FW lo hi Hi' eq_refl eq_refl) as [Flo Fhi].
  cbn [expected_value fl_add fl_mul fl_lift2 fl_eq].
  apply conserved_sum_linear; lia.
Qed.

Lemma rebin_linear_witness :
  exists rf rg rh,
    rebin INT64_MIN no_np_int test_wave (Some test_wave) None None (Some test_wave_new)
    = Ok [FloatArr rf] /\
    rebin INT64_MIN no_np_int test_wave (Some test_flux) None None (Some test_wave_new)
    = Ok [FloatArr rg] /\
    rebin INT64_MIN no_np_int test_wave
      (Some (zip_with (fun a b => 3 * a + b) test_wave test_flux)) None None
      (Some test_wave_new)
    = Ok [FloatArr rh] /\
    forall i, (i < length test_wave_new)%nat ->
      fl_eq (nth i rh NaN) (fl_add (fl_mul (Some 3) (nth i rf NaN)) (nth i rg NaN)).
Proof.
  apply (rebin_linear INT64_MIN no_np_int test_wave test_wave test_flux test_wave_new 3);
    vm_compute; try reflexivity; lia.
Defined.













Lemma fold_min_ge_bound (t : list Q) (a b : Q) :
  b <= a -> (forall v, In v t -> b <= v) -> b <= fold_left Qmin t a.
Proof.
  revert a. induction t as [|c t IH]; intros a Ha Ht; cbn [fold_left]; [exact Ha|].
  apply IH.
  - apply Q.min_glb; [exact Ha | apply Ht; now left].
  - intros v Hv. apply Ht. now right.
Qed.

Lemma fold_max_le_bound (t : list Q) (a b : Q) :
  a <= b -> (forall v, In v t -> v <= b) -> fold_left Qmax t a <= b.
Proof.
  revert a. induction t as [|c t IH]; intros a Ha Ht; cbn [fold_left]; [exact Ha|].
  apply IH.
  - apply Q.max_lub; [exact Ha | apply Ht; now left].
  - intros v Hv. apply Ht. now right.
Qed.

Lemma uniform_nth (x : list Q) (d : Q) (k : nat) :
  (forall i, (S i < length x)%nat -> nth (S i) x 0 - nth i x 0 == d) ->
  (k < length x)%nat ->
  nth k x 0 == nth 0 x 0 + inject_Z (Z.of_nat k) * d.
Proof.
  intros Hd. induction k as [|k IH]; intros Hk.
  - cbn [Z.of_nat]. change (inject_Z 0) with 0. ring.
  - pose proof (Hd k Hk) as Hs. specialize (IH ltac:(lia)).
    replace (Z.of_nat (S k)) with (Z.of_nat k + 1)%Z by lia.
    rewrite inject_Z_plus. change (inject_Z 1) with 1. lra.
Qed.

(** X21.  For a uniformly spaced array with positive spacing and positive
    first entry, the default grid has as many samples as the array. *)
Theorem wave_log10_uniform_count (wave : list Q) (d : Q) :
  (2 <= length wave)%nat ->
  (forall i, (S i < length wave)%nat -> nth (S i) wave 0 - nth i wave 0 == d) ->
  0 < d -> 0 < nth 0 wave 0 ->
  exists g, wave_log10 wave None = Ok (LogGrid g) /\ length g = length wave.
Proof.
  intros Hn Hd Hd0 Hx0.
  destruct (mdwave_between wave d d Hn) as [d' [Hmd [D1 D2]]].
  { intros i Hi. pose proof (Hd i Hi). split; lra. }
  assert (Ed : d' == d) by lra.
  assert (Hbounds : forall v, In v wave ->
            nth 0 wave 0 <= v /\ v <= nth (length wave - 1) wave 0).
  { intros v Hv. destruct (In_nth _ _ 0 Hv) as [k [Hk <-]].
    pose proof (uniform_nth wave d k Hd Hk) as Ek.
    pose proof (uniform_nth wave d (length wave - 1) Hd ltac:(lia)) as El.
    assert (K0 : 0 <= inject_Z (Z.of_nat k)).
    { change 0 with (inject_Z 0). rewrite <- Zle_Qle. lia. }
    assert (K1 : inject_Z (Z.of_nat k) <= inject_Z (Z.of_nat (length wave - 1))).
    { rewrite <- Zle_Qle. lia. }
    split; [nra | nra]. }
  destruct wave as [|a t] eqn:Ew; [cbn [length] in Hn; lia|].
  rewrite <- Ew in *.
  assert (Hmin : np_min wave = Ok (fold_left Qmin t a)) by (now rewrite Ew).
  assert (Hmax : np_max wave = Ok (fold_left Qmax t a)) by (now rewrite Ew).
  set (lo := fold_left Qmin t a) in *. set (hi := fold_left Qmax t a) in *.
  assert (Ha : nth 0 wave 0 = a) by (now rewrite Ew).
  assert (Hin : forall v, In v t -> In v wave) by (intros v Hv; rewrite Ew; now right).
  assert (Hain : In a wave) by (rewrite Ew; now left).
  assert (Elo : lo == a).
  { apply Qle_antisym.
    - exact (proj1 (fold_min_le t a)).
    - apply fold_min_ge_bound; [apply Qle_refl|].
      intros v Hv. rewrite <- Ha. now apply Hbounds, Hin. }
  assert (Hlast_in : In (nth (length wave - 1) wave 0) wave) by (apply nth_In; lia).
  assert (Ehi : hi == nth (length wave - 1) wave 0).
  { apply Qle_antisym.
    - apply fold_max_le_bound.
      + exact (proj2 (Hbounds a Hain)).
      + intros v Hv. exact (proj2 (Hbounds v (Hin v Hv))).
    - now apply (np_max_ge wave). }
  pose proof (uniform_nth wave d (length wave - 1) Hd ltac:(lia)) as El.
  rewrite Ha in El, Hx0.
  assert (N1 : 1 <= inject_Z (Z.of_nat (length wave - 1))).
  { change 1 with (inject_Z 1). rewrite <- Zle_Qle. lia. }
  assert (Hrange : hi - lo == inject_Z (Z.of_nat (length wave - 1)) * d) by lra.
  destruct (wave_log10_samples wave None d' lo hi Hmin Hmax Hmd)
    as [g [Hg [_ [Lg _]]]]; try lra; try nra.
  exists g. split; [exact Hg|].
  assert (Eq : (hi - lo) / d' == inject_Z (Z.of_nat (length wave - 1))).
  { rewrite Hrange, Ed. field. lra. }
  rewrite (Qfloor_comp _ _ Eq), Qfloor_Z in Lg. lia.
Qed.

Lemma wave_log10_uniform_count_witness :
  exists g,
    wave_log10 [4000; 4002; 4004; 4006] None = Ok (LogGrid g) /\
    length g = length [4000; 4002; 4004; 4006].
Proof.
  apply (wave_log10_uniform_count [4000; 4002; 4004; 4006] 2);
    try (vm_compute; reflexivity); [vm_compute; lia|].
  intros i Hi.
  do 3 (destruct i as [|i]; [vm_compute; reflexivity|]).
  vm_compute in Hi. lia.
Defined.
